(** * CiscoMCPPods: the streamable-HTTP MCP gateway

    A shallow embedding of the streamable-HTTP server [src/server-http.js]
    (event store, auth middleware, tool and resource handlers, the three
    [/mcp] endpoints), of [src/config.js] and of the REST client
    [src/podsClient.js], with the properties of the design document stated
    over it.

    The MCP SDK and the network are not part of the repository.  A run of
    the SDK's [handleRequest] is an argument of the endpoint handlers (the
    callbacks it fires and how it ends), and [fetch] is an argument of the
    client; every property holds for all of them.

    JavaScript values are kept close to the runtime: a value is a
    primitive, an array or an object (an ordered list of own properties);
    truthiness and strict equality are written out; a plain object used as
    a dictionary answers for the names it inherits from
    [Object.prototype] as well as for its own keys. *)

From Stdlib Require Import ZArith Lia Sorted.
From stdpp Require Import base option list strings gmap pretty.

Set Warnings "-register-all".

Local Open Scope string_scope.
Local Open Scope list_scope.
Local Open Scope Z_scope.

(** ** JavaScript values *)

Module Js.

Inductive prim :=
| Undefined
| Null
| Bool (b : bool)
| Num (n : Z)
| Str (s : string).

Inductive value :=
| Prim (p : prim)
| Arr (items : list value)
| Obj (props : list (string * value)).

#[global] Instance prim_eq_dec : EqDecision prim.
Proof. solve_decision. Defined.

(** [!!x]: the falsy primitives are [undefined], [null], [false], [0]
    and the empty string. *)
Definition truthy_prim (p : prim) : bool :=
  match p with
  | Undefined | Null => false
  | Bool b => b
  | Num n => negb (Z.eqb n 0)
  | Str s => negb (String.eqb s "")
  end.

Definition truthy (v : value) : bool :=
  match v with
  | Prim p => truthy_prim p
  | Arr _ | Obj _ => true
  end.

(** [a === b] on primitives. *)
Definition strict_eq (a b : prim) : bool := bool_decide (a = b).

(** [v === 'literal']: an array or an object is never equal to a string. *)
Definition is_string (v : value) (lit : string) : bool :=
  match v with
  | Prim (Str s) => String.eqb s lit
  | _ => false
  end.

(** A header or an environment variable: a string, or [undefined]. *)
Definition of_option (o : option string) : prim :=
  match o with
  | Some s => Str s
  | None => Undefined
  end.

(** Own property of an object literal or of a parsed JSON object. *)
Fixpoint own (props : list (string * value)) (key : string) : value :=
  match props with
  | [] => Prim Undefined
  | (k, v) :: rest => if String.eqb k key then v else own rest key
  end.

(** [v.key] for a key that neither arrays, strings nor [Object.prototype]
    define; used for [method], [message], [keyword], [collection],
    [number] and [updates].  Reading a property of [undefined] or [null]
    is a [TypeError], reported as [None]. *)
Definition member (v : value) (key : string) : option value :=
  match v with
  | Prim Undefined | Prim Null => None
  | Prim _ | Arr _ => Some (Prim Undefined)
  | Obj props => Some (own props key)
  end.

(** The double nearest to a positive integer (ties to the even
    mantissa): the Number a JSON integer literal parses to. *)
Definition round_to_double (n : Z) : Z :=
  let bits := Z.log2 n + 1 in
  if bits <=? 53 then n
  else
    let e := bits - 53 in
    let q := Z.shiftr n e in
    let r := n - Z.shiftl q e in
    let half := Z.shiftl 1 (e - 1) in
    let q' := if (half <? r) || ((r =? half) && Z.odd q) then q + 1 else q in
    Z.shiftl q' e.

Definition decimal_length (n : Z) : Z := Z.of_nat (String.length (pretty n)).

(** Whether the decimal value [v] reads back as the double [x >= 2^53]:
    it lies within half a gap of [x], the ends counting when the mantissa
    of [x] is even. *)
Definition reads_back (x v : Z) : bool :=
  let ulp := Z.shiftl 1 (Z.log2 x - 52) in
  let below := if x =? Z.shiftl 1 (Z.log2 x) then ulp / 2 else ulp in
  if Z.even (Z.shiftr x (Z.log2 x - 52))
  then (0 <? v) && (2 * x - below <=? 2 * v) && (2 * v <=? 2 * x + ulp)
  else (0 <? v) && (2 * x - below <? 2 * v) && (2 * v <? 2 * x + ulp).

(** The decimal with the fewest significant digits that reads back as the
    double [x >= 2^53], as a value and the count of its trailing zeros:
    the coarsest power of ten with a multiple that reads back, and of its
    two multiples around [x] the nearer one. *)
Fixpoint shortest_from (fuel : nat) (x j : Z) : Z * Z :=
  match fuel with
  | O => (x, 0)
  | S fuel' =>
      let p := 10 ^ j in
      let lo := (x / p) * p in
      let hi := lo + p in
      match reads_back x lo, reads_back x hi with
      | true, true =>
          if x - lo <? hi - x then (lo, j)
          else if hi - x <? x - lo then (hi, j)
          else if Z.even (lo / p) then (lo, j) else (hi, j)
      | true, false => (lo, j)
      | false, true => (hi, j)
      | false, false => shortest_from fuel' x (j - 1)
      end
  end.

Definition shortest (x : Z) : Z * Z :=
  shortest_from (Z.to_nat (decimal_length x) + 1) x (decimal_length x).

(** [Number::toString] on a positive integer: the digits in full below
    [10^21], exponent notation from there on, [Infinity] past the largest
    double. *)
Definition positive_to_string (n : Z) : string :=
  let x := round_to_double n in
  if 2 ^ 1024 <=? x then "Infinity"
  else if x <? 2 ^ 53 then pretty x
  else
    let '(v, j) := shortest x in
    if decimal_length v <=? 21 then pretty v
    else
      match pretty (v / 10 ^ j) with
      | String d "" =>
          String d "" +:+ "e+" +:+ pretty (decimal_length v - 1)
      | String d more =>
          String d ("." +:+ more) +:+ "e+" +:+ pretty (decimal_length v - 1)
      | "" => ""
      end.

Definition number_to_string (n : Z) : string :=
  if n =? 0 then "0"
  else if n <? 0 then "-" +:+ positive_to_string (- n)
  else positive_to_string n.

Definition prim_to_string (p : prim) : string :=
  match p with
  | Undefined => "undefined"
  | Null => "null"
  | Bool true => "true"
  | Bool false => "false"
  | Num n => number_to_string n
  | Str s => s
  end.

Definition has_own (props : list (string * value)) (key : string) : bool :=
  existsb (fun kv => String.eqb kv.1 key) props.

(** [String(v)], as template literals and [new Error(v)] apply it; [None]
    is the [TypeError] "Cannot convert object to primitive value".  An
    object converts through the [toString] it inherits unless it has an
    own [toString], which in parsed JSON is never callable; an array joins
    the conversions of its elements, [null] and [undefined] counting as
    empty. *)
Fixpoint ToString (v : value) : option string :=
  match v with
  | Prim p => Some (prim_to_string p)
  | Arr items =>
      String.concat "," <$>
        (fix join (l : list value) : option (list string) :=
           match l with
           | [] => Some []
           | x :: rest =>
               match match x with
                     | Prim Undefined | Prim Null => Some ""
                     | _ => ToString x
                     end, join rest with
               | Some s, Some ss => Some (s :: ss)
               | _, _ => None
               end
           end) items
  | Obj props =>
      if has_own props "toString" then None else Some "[object Object]"
  end.

(** The names every plain object inherits from [Object.prototype]. *)
Definition object_prototype_keys : list string :=
  [ "constructor"; "__defineGetter__"; "__defineSetter__"; "hasOwnProperty";
    "__lookupGetter__"; "__lookupSetter__"; "isPrototypeOf";
    "propertyIsEnumerable"; "toString"; "valueOf"; "__proto__";
    "toLocaleString" ].

(** What [dict[key]] evaluates to when [dict] is a plain object [{}]
    holding values of type [T] under its own keys. *)
Inductive slot (T : Type) :=
| Own (x : T)
| Inherited (name : string)
| Missing.
Arguments Own {T} x.
Arguments Inherited {T} name.
Arguments Missing {T}.

Definition dict_get {T} (dict : gmap string T) (key : string) : slot T :=
  match dict !! key with
  | Some x => Own x
  | None =>
      if bool_decide (key ∈ object_prototype_keys) then Inherited key
      else Missing
  end.

(** Own entries and inherited members are all truthy. *)
Definition slot_truthy {T} (s : slot T) : bool :=
  match s with
  | Own _ | Inherited _ => true
  | Missing => false
  end.

End Js.

(** The text [JSON.stringify(subject, null, indent)], kept as the call
    that produces it. *)
Record JsonText := JSON_stringify { subject : Js.value; indent : nat }.

(** ** The in-memory event store *)

Record Event := { id : Js.prim; message : Js.value }.

Module InMemoryEventStore.

Record t := { events : gmap string (list Event) }.

(** [constructor()] *)
Definition new : t := {| events := ∅ |}.

(** [Array.prototype.findIndex]: the first index whose element satisfies
    the predicate, [-1] when there is none. *)
Fixpoint findIndex_from {A} (p : A → bool) (l : list A) (i : Z) : Z :=
  match l with
  | [] => -1
  | x :: rest => if p x then i else findIndex_from p rest (i + 1)
  end.

Definition findIndex {A} (p : A → bool) (l : list A) : Z :=
  findIndex_from p l 0.

(** [Array.prototype.slice(start)] for [start >= 0]. *)
Definition slice {A} (l : list A) (start : Z) : list A :=
  drop (Z.to_nat start) l.

Definition getEventsAfter (store : t) (sessionId : string)
    (afterEventId : Js.prim) : list Event :=
  let sessionEvents := default [] (events store !! sessionId) in
  if negb (Js.truthy_prim afterEventId) then sessionEvents
  else
    let afterIndex :=
      findIndex (fun e => Js.strict_eq (id e) afterEventId) sessionEvents in
    if Z.eqb afterIndex (-1) then sessionEvents
    else slice sessionEvents (afterIndex + 1).

Definition addEvent (store : t) (sessionId : string) (event : Event) : t :=
  let created :=
    if bool_decide (is_Some (events store !! sessionId)) then events store
    else <[sessionId := []]> (events store) in
  {| events := alter (fun log => log ++ [event]) sessionId created |}.

Definition clearSession (store : t) (sessionId : string) : t :=
  {| events := delete sessionId (events store) |}.

(** The stored log of a session and the ids it holds, in stored order. *)
Definition log (store : t) (sessionId : string) : list Event :=
  default [] (events store !! sessionId).

Definition ids (l : list Event) : list Js.prim := map id l.

(** Appending a batch of events, one [addEvent] call each. *)
Definition addEvents (store : t) (sessionId : string) (es : list Event) : t :=
  foldl (fun s e => addEvent s sessionId e) store es.

End InMemoryEventStore.

(** ** Configuration ([src/config.js]) *)

Record Config := {
  apiBaseUrl : string;
  authMode : string;
  apiKeyPods : option string;
  jwtToken : option string;
  serverPath : string;
  mcpApiKey : option string
}.

(** [process.env.NAME || fallback] *)
Definition env_or (env : gmap string string) (name fallback : string) : string :=
  match env !! name with
  | Some s => if Js.truthy_prim (Js.Str s) then s else fallback
  | None => fallback
  end.

(** The exported [config] object, read from the environment
    ([serverPort] is left out: no handler reads it). *)
Definition config (env : gmap string string) : Config :=
  {| apiBaseUrl := env_or env "API_BASE_URL" "http://apigateway.cxocoe.us";
     authMode := env_or env "AUTH_MODE" "apikey";
     apiKeyPods := env !! "API_KEY_PODS";
     jwtToken := env !! "JWT_TOKEN";
     serverPath := env_or env "SERVER_PATH" "/CiscoMCPPods";
     mcpApiKey := env !! "MCP_API_KEY" |}.

(** ** HTTP requests and responses *)

Inductive Verb := GET | POST | DELETE.

Record Request := {
  req_verb : Verb;
  req_path : string;
  req_headers : gmap string string;
  req_body : Js.value
}.

(** [res.json(v)] and [res.send(text)] *)
Inductive Payload :=
| Json (v : Js.value)
| Text (s : string).

Record Response := { status : Z; payload : Payload }.

(** The object literal [{ jsonrpc: '2.0', error: { code, message }, id: null }]. *)
Definition jsonrpc_error (code : Z) (msg : string) : Js.value :=
  Js.Obj [ ("jsonrpc", Js.Prim (Js.Str "2.0"));
           ("error", Js.Obj [ ("code", Js.Prim (Js.Num code));
                              ("message", Js.Prim (Js.Str msg)) ]);
           ("id", Js.Prim Js.Null) ].

(** The JSON-RPC error code a response body carries, if it carries one. *)
Definition error_code (r : Response) : option Z :=
  match payload r with
  | Json (Js.Obj props) =>
      match Js.own props "error" with
      | Js.Obj e =>
          match Js.own e "code" with
          | Js.Prim (Js.Num c) => Some c
          | _ => None
          end
      | _ => None
      end
  | _ => None
  end.

(** ** Authentication middleware *)

(** A middleware either calls [next()] or answers the request itself. *)
Inductive Middleware := Next | Reply (r : Response).

Definition authenticateApiKey (cfg : Config) (req : Request) : Middleware :=
  if String.eqb (req_path req) (serverPath cfg +:+ "/health")
     || String.eqb (req_path req) "/"
  then Next
  else if negb (Js.truthy_prim (Js.of_option (mcpApiKey cfg))) then Next
  else
    let apiKey := Js.of_option (req_headers req !! "x-api-key") in
    if negb (Js.truthy_prim apiKey) then
      Reply {| status := 401;
               payload := Json (jsonrpc_error (-32001)
                                  "Unauthorized: Missing X-API-Key header") |}
    else if negb (Js.strict_eq apiKey (Js.of_option (mcpApiKey cfg))) then
      Reply {| status := 403;
               payload := Json (jsonrpc_error (-32002)
                                  "Forbidden: Invalid API key") |}
    else Next.

(** ** Exceptions and the trace of outbound calls *)

(** A thrown [Error]; handlers only read its [message]. *)
Record Error := { err_message : string }.

Inductive completion (A : Type) :=
| Return (a : A)
| Throw (e : Error).
Arguments Return {A} a.
Arguments Throw {A} e.

(** The options bag handed to [fetch]. *)
Record RequestInit := {
  init_method : option string;
  init_body : option JsonText;
  init_headers : option (list (string * string));
  init_signal : option Z
}.

Record FetchResponse := {
  resp_ok : bool;
  resp_status : Z;
  resp_json : completion Js.value
}.

(** The network: what [await fetch(url, init)] settles to. *)
Definition Fetch := string → RequestInit → completion FetchResponse.

(** A computation records the [fetch] calls it makes and completes
    normally or by throwing. *)
Definition M (A : Type) : Type := list (string * RequestInit) * completion A.

Definition ret {A} (a : A) : M A := ([], Return a).
Definition throw {A} (e : Error) : M A := ([], Throw e).

#[global] Instance M_bind : MBind M := fun A B (k : A → M B) (m : M A) =>
  match m with
  | (made, Return a) => let '(more, c) := k a in (made ++ more, c)
  | (made, Throw e) => (made, Throw e)
  end.

(** [try { m } catch (error) { handler(error) }] *)
Definition try_catch {A} (m : M A) (handler : Error → M A) : M A :=
  match m with
  | (made, Throw e) => let '(more, c) := handler e in (made ++ more, c)
  | settled => settled
  end.

Definition lift {A} (c : completion A) : M A := ([], c).

Definition calls {A} (m : M A) : list (string * RequestInit) := fst m.
Definition result {A} (m : M A) : completion A := snd m.

(** [v.key] where reading from [undefined] or [null] throws a
    [TypeError]. *)
Definition read (v : Js.value) (key : string) : M Js.value :=
  match Js.member v key with
  | Some x => ret x
  | None =>
      throw {| err_message :=
                 "Cannot read properties of "
                 +:+ match v with
                     | Js.Prim p => Js.prim_to_string p
                     | _ => ""
                     end
                 +:+ " (reading '" +:+ key +:+ "')" |}
  end.

(** [`${v}`] and [new Error(v).message]: the conversion to a string, which
    throws a [TypeError] when the value has none. *)
Definition text_of (v : Js.value) : M string :=
  match Js.ToString v with
  | Some s => ret s
  | None =>
      throw {| err_message := "Cannot convert object to primitive value" |}
  end.

(** A computation is untimed when none of the [fetch] calls it makes
    passes a [signal]. *)
Definition untimed {A} (m : M A) : Prop :=
  Forall (fun call => init_signal call.2 = None) (calls m).

(** ** The REST client ([src/podsClient.js]) *)

Module PodsClient.

Record t := {
  baseUrl : string;
  clientAuthMode : string;
  apiKey : option string;
  clientJwtToken : option string
}.

(** [constructor()] *)
Definition new (cfg : Config) : t :=
  {| baseUrl := apiBaseUrl cfg;
     clientAuthMode := authMode cfg;
     apiKey := apiKeyPods cfg;
     clientJwtToken := jwtToken cfg |}.

(** [bag[key]] on a header bag. *)
Fixpoint header (bag : list (string * string)) (key : string) : option string :=
  match bag with
  | [] => None
  | (k, v) :: rest => if String.eqb k key then Some v else header rest key
  end.

(** [{ ...a, ...b }] on header bags: the keys of [a] in their order, with
    the value [b] gives them if it has them, then the keys only [b] has. *)
Definition spread (a b : list (string * string)) : list (string * string) :=
  map (fun kv => (kv.1, default kv.2 (header b kv.1))) a
  ++ filter (fun kv => bool_decide (kv.1 ∉ a.*1)) b.

Definition getAuthHeaders (this : t) : list (string * string) :=
  let headers := [ ("Content-Type", "application/json") ] in
  if String.eqb (clientAuthMode this) "apikey"
     && Js.truthy_prim (Js.of_option (apiKey this))
  then headers ++ [ ("x-api-key", default "" (apiKey this)) ]
  else if String.eqb (clientAuthMode this) "jwt"
          && Js.truthy_prim (Js.of_option (clientJwtToken this))
  then headers ++ [ ("Authorization",
                     "Bearer " +:+ default "" (clientJwtToken this)) ]
  else headers.

(** The second argument of [fetch] in [makeRequest]:
    [{ ...options, headers: { ...this.getAuthHeaders(), ...options.headers } }]. *)
Definition fetch_init (this : t) (options : RequestInit) : RequestInit :=
  {| init_method := init_method options;
     init_body := init_body options;
     init_signal := init_signal options;
     init_headers :=
       Some (spread (getAuthHeaders this) (default [] (init_headers options))) |}.

Section WithNetwork.

Variable network : Fetch.

Definition fetch (url : string) (init : RequestInit) : M FetchResponse :=
  ([(url, init)], network url init).

Definition makeRequest (this : t) (url : string) (options : RequestInit)
  : M Js.value :=
  try_catch
    (response ← fetch url (fetch_init this options);
     data ← lift (resp_json response);
     if negb (resp_ok response) then
       message ← read data "message";
       text ← (if Js.truthy message then text_of message
               else ret ("API request failed with status "
                         +:+ Js.number_to_string (resp_status response)));
       throw {| err_message := text |}
     else ret data)
    (fun error => throw error).

Definition options_for (method : string) (body : option JsonText) : RequestInit :=
  {| init_method := Some method; init_body := body;
     init_headers := None; init_signal := None |}.

Definition getPodKeyword (this : t) : M Js.value :=
  let url := baseUrl this +:+ "/api/v2/pods/keyword" in
  makeRequest this url (options_for "GET" None).

Definition updatePodKeyword (this : t) (keyword : Js.value) : M Js.value :=
  let url := baseUrl this +:+ "/api/v2/pods/keyword" in
  makeRequest this url
    (options_for "PATCH"
       (Some (JSON_stringify (Js.Obj [ ("keyword", keyword) ]) 0))).

Definition getAllPods (this : t) (collection : Js.value) : M Js.value :=
  c ← text_of collection;
  let url := baseUrl this +:+ "/api/v2/pods/" +:+ c in
  makeRequest this url (options_for "GET" None).

Definition getPodByNumber (this : t) (collection number : Js.value)
  : M Js.value :=
  c ← text_of collection;
  n ← text_of number;
  let url := baseUrl this +:+ "/api/v2/pods/" +:+ c +:+ "/" +:+ n in
  makeRequest this url (options_for "GET" None).

Definition createPod (this : t) (collection podData : Js.value) : M Js.value :=
  c ← text_of collection;
  let url := baseUrl this +:+ "/api/v2/pods/" +:+ c in
  makeRequest this url (options_for "POST" (Some (JSON_stringify podData 0))).

Definition updatePod (this : t) (collection number updates : Js.value)
  : M Js.value :=
  c ← text_of collection;
  n ← text_of number;
  let url := baseUrl this +:+ "/api/v2/pods/" +:+ c +:+ "/" +:+ n in
  makeRequest this url (options_for "PATCH" (Some (JSON_stringify updates 0))).

Definition deletePod (this : t) (collection number : Js.value) : M Js.value :=
  c ← text_of collection;
  n ← text_of number;
  let url := baseUrl this +:+ "/api/v2/pods/" +:+ c +:+ "/" +:+ n in
  makeRequest this url (options_for "DELETE" None).

End WithNetwork.

End PodsClient.

(** ** The MCP server: tools and resources ([createMCPServer]) *)

(** A catalog entry of [tools/list]: its name and the [required] list of
    its input schema (descriptions and property types are left out). *)
Record Tool := { tool_name : string; tool_required : list string }.

(** The [ListToolsRequestSchema] handler. *)
Definition listTools : list Tool :=
  [ {| tool_name := "get_pod_keyword"; tool_required := [] |};
    {| tool_name := "update_pod_keyword"; tool_required := ["keyword"] |};
    {| tool_name := "get_all_pods"; tool_required := ["collection"] |};
    {| tool_name := "get_pod_by_number";
       tool_required := ["collection"; "number"] |};
    {| tool_name := "create_pod";
       tool_required :=
         [ "collection"; "Number"; "POD"; "AdminLogin"; "AgentLogin";
           "SupervisorLogin"; "Password"; "TelephoneNumber"; "SMSNumber";
           "Status"; "CRMLogin"; "CRMPassword" ] |};
    {| tool_name := "update_pod";
       tool_required := ["collection"; "number"; "updates"] |};
    {| tool_name := "delete_pod"; tool_required := ["collection"; "number"] |} ].

Definition tool_catalog : list string := map tool_name listTools.

Record TextContent := { content_type : string; content_text : JsonText }.

(** A tool result; [isError] is [None] when the key is absent. *)
Record CallToolResult := {
  content : list TextContent;
  isError : option bool
}.

(** [{ content: [{ type: 'text', text: JSON.stringify(result, null, 2) }] }] *)
Definition tool_text (v : Js.value) : CallToolResult :=
  {| content := [ {| content_type := "text";
                     content_text := JSON_stringify v 2 |} ];
     isError := None |}.

(** The object the [catch] block of the tool handler serialises. *)
Definition tool_failure (msg : string) : Js.value :=
  Js.Obj [ ("error", Js.Prim (Js.Str msg));
           ("details", Js.Prim (Js.Str "Failed to execute API request.")) ].

(** The value the [catch] block of the tool handler returns. *)
Definition tool_error (msg : string) : CallToolResult :=
  {| content := [ {| content_type := "text";
                     content_text := JSON_stringify (tool_failure msg) 2 |} ];
     isError := Some true |}.

(** [params.arguments] as the SDK's schema admits it: absent, or an object. *)
Definition arguments_value (args : option (list (string * Js.value))) : Js.value :=
  match args with
  | Some props => Js.Obj props
  | None => Js.Prim Js.Undefined
  end.

(** [const { collection, ...podData } = args] *)
Definition destructure_collection (args : option (list (string * Js.value)))
  : M (Js.value * Js.value) :=
  match args with
  | Some props =>
      ret (Js.own props "collection",
           Js.Obj (filter (fun kv => bool_decide (kv.1 ≠ "collection")) props))
  | None =>
      throw {| err_message :=
                 "Cannot destructure property 'collection' of 'args' as it is undefined." |}
  end.

Record ResourceContents := {
  res_uri : string;
  res_mimeType : string;
  res_text : JsonText
}.

Record ReadResourceResult := { contents : list ResourceContents }.

(** The object the [catch] block of the resource handler serialises. *)
Definition resource_failure (msg : string) : Js.value :=
  Js.Obj [ ("error", Js.Prim (Js.Str msg));
           ("details", Js.Prim (Js.Str "Failed to fetch resource.")) ].

Definition resource_json (uri : string) (v : Js.value) : ReadResourceResult :=
  {| contents := [ {| res_uri := uri; res_mimeType := "application/json";
                      res_text := JSON_stringify v 2 |} ] |}.


Section Server.

Variable network : Fetch.
Variable cfg : Config.

Let podsClient := PodsClient.new cfg.

(** The body of the [try] block of the [CallToolRequestSchema] handler. *)
Definition callTool_switch (name : string)
    (args : option (list (string * Js.value))) : M CallToolResult :=
  let a := arguments_value args in
  if String.eqb name "get_pod_keyword" then
    result ← PodsClient.getPodKeyword network podsClient;
    ret (tool_text result)
  else if String.eqb name "update_pod_keyword" then
    keyword ← read a "keyword";
    result ← PodsClient.updatePodKeyword network podsClient keyword;
    ret (tool_text result)
  else if String.eqb name "get_all_pods" then
    collection ← read a "collection";
    result ← PodsClient.getAllPods network podsClient collection;
    ret (tool_text result)
  else if String.eqb name "get_pod_by_number" then
    collection ← read a "collection";
    number ← read a "number";
    result ← PodsClient.getPodByNumber network podsClient collection number;
    ret (tool_text result)
  else if String.eqb name "create_pod" then
    '(collection, podData) ← destructure_collection args;
    result ← PodsClient.createPod network podsClient collection podData;
    ret (tool_text result)
  else if String.eqb name "update_pod" then
    collection ← read a "collection";
    number ← read a "number";
    updates ← read a "updates";
    result ← PodsClient.updatePod network podsClient collection number updates;
    ret (tool_text result)
  else if String.eqb name "delete_pod" then
    collection ← read a "collection";
    number ← read a "number";
    result ← PodsClient.deletePod network podsClient collection number;
    ret (tool_text result)
  else throw {| err_message := "Unknown tool: " +:+ name |}.

(** The [CallToolRequestSchema] handler, on [request.params]. *)
Definition callTool (name : string)
    (args : option (list (string * Js.value))) : M CallToolResult :=
  try_catch (callTool_switch name args)
    (fun error => ret (tool_error (err_message error))).

(** The body of the [try] block of the [ReadResourceRequestSchema] handler. *)
Definition readResource_switch (uri : string) : M ReadResourceResult :=
  if String.eqb uri "pods://keyword" then
    result ← PodsClient.getPodKeyword network podsClient;
    ret (resource_json uri result)
  else if String.eqb uri "pods://config" then
    ret (resource_json uri
           (Js.Obj
              [ ("baseUrl", Js.Prim (Js.Str (apiBaseUrl cfg)));
                ("authMode", Js.Prim (Js.Str (authMode cfg)));
                ("hasApiKey",
                 Js.Prim (Js.Bool (Js.truthy_prim (Js.of_option (apiKeyPods cfg)))));
                ("hasJwtToken",
                 Js.Prim (Js.Bool (Js.truthy_prim (Js.of_option (jwtToken cfg)))));
                ("status", Js.Prim (Js.Str "Connected")) ]))
  else throw {| err_message := "Unknown resource: " +:+ uri |}.

(** The [ReadResourceRequestSchema] handler, on [request.params.uri]. *)
Definition readResource (uri : string) : M ReadResourceResult :=
  try_catch (readResource_switch uri)
    (fun error => ret (resource_json uri (resource_failure (err_message error)))).

End Server.

(** How the SDK's [Server] answers a request once its handler settles: the
    value a handler returns becomes the [result] of the reply, an
    exception it lets escape becomes a JSON-RPC [error] (internal error,
    with the exception's message). *)
Inductive JsonRpcReply (R : Type) :=
| RpcResult (r : R)
| RpcError (code : Z) (msg : string).
Arguments RpcResult {R} r.
Arguments RpcError {R} code msg.

Definition reply {R} (settled : completion R) : JsonRpcReply R :=
  match settled with
  | Return r => RpcResult r
  | Throw e => RpcError (-32603) (err_message e)
  end.

(** ** Sessions: the transports and the three [/mcp] endpoints *)

(** What this server sets and reads of a [StreamableHTTPServerTransport]:
    the session id the SDK assigns at initialisation, and two of the
    options passed to its constructor. *)
Record Transport := {
  sessionId : option string;
  enableJsonResponse : bool;
  eventStore : InMemoryEventStore.t
}.

(** How a call of [transport.handleRequest] ends: the SDK wrote a
    response, or the call threw after writing [sent] (nothing, when the
    headers were not sent yet). *)
Inductive SdkEnd :=
| Responded (r : Response)
| Threw (sent : option Response).

(** One run of [transport.handleRequest(req, res, body)], as far as this
    server observes it: whether the SDK invoked [onsessioninitialized]
    (and with which generated id), whether it invoked [onclose], and how
    the call ended. *)
Record SdkRun := {
  initialized : option string;
  closed : bool;
  ending : SdkEnd
}.

Definition Sdk := Transport → Request → SdkRun.

(** The result of an endpoint handler: the [transports] object afterwards,
    the transport it constructed (if it did), and the response the handler
    or the SDK wrote ([None]: the handler failed without writing one; what
    the client then receives is up to Express, whose version 5 passes the
    rejected promise of an async handler to its error handler and answers
    500 with its own error page). *)
Record Handled := {
  transports_after : gmap string Transport;
  created : option Transport;
  response : option Response
}.

(** [body && body.method === 'initialize'], as a condition. *)
Definition isInitializeRequest (body : Js.value) : bool :=
  Js.truthy body
  && match Js.member body "method" with
     | Some m => Js.is_string m "initialize"
     | None => false
     end.

(** [sessionId && transports[sessionId]] *)
Definition session_slot (transports : gmap string Transport)
    (sessionId : option string) : Js.slot Transport :=
  match sessionId with
  | Some sid =>
      if Js.truthy_prim (Js.Str sid) then Js.dict_get transports sid
      else Js.Missing
  | None => Js.Missing
  end.

(** The [onsessioninitialized] callback: [transports[sid] = transport].
    The SDK has stored [sid] in the transport before it calls back; [sid]
    is what the [sessionIdGenerator] passed to the constructor returns, a
    [randomUUID()] string, hence an ordinary key (never [__proto__]).
    The entry is the transport as it is at that moment.  JavaScript
    stores a reference to the one transport object; the record stored
    here agrees with it as long as the SDK assigns a transport its session
    id once, which is all the statements below rely on. *)
Definition onsessioninitialized (transport : Transport) (sid : string)
    (transports : gmap string Transport) : Transport * gmap string Transport :=
  let transport' :=
    {| sessionId := Some sid;
       enableJsonResponse := enableJsonResponse transport;
       eventStore := eventStore transport |} in
  (transport', <[sid := transport']> transports).

(** The [onclose] callback. *)
Definition onclose (transport : Transport)
    (transports : gmap string Transport) : gmap string Transport :=
  if Js.slot_truthy (session_slot transports (sessionId transport))
  then delete (default "" (sessionId transport)) transports
  else transports.

(** The callbacks one SDK run fires, in order. *)
Definition callbacks (transport : Transport) (run : SdkRun)
    (transports : gmap string Transport) : gmap string Transport :=
  let '(transport', transports') :=
    match initialized run with
    | Some sid => onsessioninitialized transport sid transports
    | None => (transport, transports)
    end in
  if closed run then onclose transport' transports' else transports'.

(** [res.status(500).json(...)] of the POST handler's [catch]. *)
Definition internal_error : Response :=
  {| status := 500;
     payload := Json (jsonrpc_error (-32603) "Internal server error") |}.

Definition bad_request : Response :=
  {| status := 400;
     payload := Json (jsonrpc_error (-32000)
                        "Bad Request: No valid session ID provided") |}.

Definition invalid_session : Response :=
  {| status := 400; payload := Text "Invalid or missing session ID" |}.

Section Endpoints.

Variable sdk : Sdk.

(** [await transport.handleRequest(...)] inside the POST handler's [try]:
    an exception is answered with 500 unless headers were already sent. *)
Definition post_deliver (transport : Transport) (made : option Transport)
    (transports : gmap string Transport) (req : Request) : Handled :=
  let run := sdk transport req in
  {| transports_after := callbacks transport run transports;
     created := made;
     response :=
       match ending run with
       | Responded r => Some r
       | Threw (Some r) => Some r
       | Threw None => Some internal_error
       end |}.

(** [app.post(`${config.serverPath}/mcp`, ...)] *)
Definition post_mcp (transports : gmap string Transport) (req : Request)
  : Handled :=
  let sessionId := req_headers req !! "mcp-session-id" in
  match session_slot transports sessionId with
  | Js.Own transport => post_deliver transport None transports req
  | Js.Inherited _ =>
      (* [transport.handleRequest] is not a function: the [TypeError] is
         caught by the handler's [catch]. *)
      {| transports_after := transports; created := None;
         response := Some internal_error |}
  | Js.Missing =>
      if negb (Js.truthy_prim (Js.of_option sessionId))
         && isInitializeRequest (req_body req)
      then
        let transport :=
          {| sessionId := None;
             enableJsonResponse := true;
             eventStore := InMemoryEventStore.new |} in
        post_deliver transport (Some transport) transports req
      else
        {| transports_after := transports; created := None;
           response := Some bad_request |}
  end.

(** [app.get(`${config.serverPath}/mcp`, ...)]: no [try] around the call,
    so an exception leaves the handler with whatever was written so far. *)
Definition get_mcp (transports : gmap string Transport) (req : Request)
  : Handled :=
  let sessionId := req_headers req !! "mcp-session-id" in
  if negb (Js.truthy_prim (Js.of_option sessionId))
     || negb (Js.slot_truthy (session_slot transports sessionId))
  then {| transports_after := transports; created := None;
          response := Some invalid_session |}
  else
    match session_slot transports sessionId with
    | Js.Own transport =>
        let run := sdk transport req in
        {| transports_after := callbacks transport run transports;
           created := None;
           response :=
             match ending run with
             | Responded r => Some r
             | Threw sent => sent
             end |}
    | _ => {| transports_after := transports; created := None;
              response := None |}
    end.

(** [app.delete(`${config.serverPath}/mcp`, ...)] *)
Definition delete_mcp (transports : gmap string Transport) (req : Request)
  : Handled :=
  let sessionId := req_headers req !! "mcp-session-id" in
  if negb (Js.truthy_prim (Js.of_option sessionId))
     || negb (Js.slot_truthy (session_slot transports sessionId))
  then {| transports_after := transports; created := None;
          response := Some invalid_session |}
  else
    let failed :=
      {| status := 500; payload := Text "Error processing session termination" |} in
    match session_slot transports sessionId with
    | Js.Own transport =>
        let run := sdk transport req in
        {| transports_after := callbacks transport run transports;
           created := None;
           response :=
             match ending run with
             | Responded r => Some r
             | Threw (Some r) => Some r
             | Threw None => Some failed
             end |}
    | _ => {| transports_after := transports; created := None;
              response := Some failed |}
    end.

(** The handler of an [/mcp] request, by verb. *)
Definition mcp (transports : gmap string Transport) (req : Request) : Handled :=
  match req_verb req with
  | POST => post_mcp transports req
  | GET => get_mcp transports req
  | DELETE => delete_mcp transports req
  end.

End Endpoints.




(** ** The properties, as the design document words them *)

(** The order of event ids: numeric on numbers, lexicographic on strings. *)
Definition id_lt (a b : Js.prim) : Prop :=
  match a, b with
  | Js.Num x, Js.Num y => x < y
  | Js.Str s, Js.Str t => String.ltb s t = true
  | _, _ => False
  end.

(** Replay: the suffix after the event whose id is [X]; the full log when
    [X] is not supplied or no stored event has that id. *)
Definition replay_as_specified (store : InMemoryEventStore.t)
    (sid : string) (X : Js.prim) : Prop :=
  let stored := InMemoryEventStore.log store sid in
  ((X = Js.Undefined ∨ ∀ e, e ∈ stored → id e ≠ X) →
   InMemoryEventStore.getEventsAfter store sid X = stored)
  ∧ (∀ pre e post,
       X ≠ Js.Undefined →
       stored = pre ++ e :: post → id e = X → (∀ e', e' ∈ pre → id e' ≠ X) →
       InMemoryEventStore.getEventsAfter store sid X = post).

(** Event ids of a session: strictly increasing in append order, never
    reused. *)
Definition ids_strictly_increasing (store : InMemoryEventStore.t)
    (sid : string) : Prop :=
  StronglySorted id_lt (InMemoryEventStore.ids (InMemoryEventStore.log store sid))
  ∧ NoDup (InMemoryEventStore.ids (InMemoryEventStore.log store sid)).

(** A middleware answer with the given HTTP status and JSON-RPC code. *)
Definition rejects (m : Middleware) (http code : Z) : Prop :=
  ∃ r, m = Reply r ∧ status r = http ∧ error_code r = Some code.

Definition protected_path (cfg : Config) (req : Request) : Prop :=
  req_path req ≠ serverPath cfg +:+ "/health" ∧ req_path req ≠ "/".

(** The auth gate: open without a configured key; with one, 401 without
    the header, 403 on another value, through on the same value; health
    and root always through. *)
Definition gate_as_specified (cfg : Config) (req : Request) : Prop :=
  let header := req_headers req !! "x-api-key" in
  let gate := authenticateApiKey cfg req in
  (mcpApiKey cfg = None → gate = Next)
  ∧ (∀ key, mcpApiKey cfg = Some key → protected_path cfg req →
       (header = None → rejects gate 401 (-32001))
       ∧ (∀ v, header = Some v → v ≠ key → rejects gate 403 (-32002))
       ∧ (header = Some key → gate = Next))
  ∧ (¬ protected_path cfg req → gate = Next).

(** A handled request answered with the given status and JSON-RPC code. *)
Definition answers (h : Handled) (http code : Z) : Prop :=
  ∃ r, response h = Some r ∧ status r = http ∧ error_code r = Some code.

(** POST: a transport is created exactly for a request without session id
    header whose body is an initialize call; an unregistered session id, or
    none with another body, is refused with 400 / -32000 and nothing is
    created or registered. *)
Definition post_as_specified (sdk : Sdk) (transports : gmap string Transport)
    (req : Request) : Prop :=
  let sid := req_headers req !! "mcp-session-id" in
  let h := post_mcp sdk transports req in
  (is_Some (created h) ↔ sid = None ∧ isInitializeRequest (req_body req) = true)
  ∧ (((∃ s, sid = Some s ∧ transports !! s = None)
      ∨ (sid = None ∧ isInitializeRequest (req_body req) = false)) →
     answers h 400 (-32000) ∧ created h = None ∧ transports_after h = transports).

(** POST, GET and DELETE: an unknown session id, or a missing one where one
    is required, is answered with 400 and JSON-RPC code -32000. *)
Definition session_errors_as_specified (sdk : Sdk)
    (transports : gmap string Transport) (req : Request) : Prop :=
  let sid := req_headers req !! "mcp-session-id" in
  ((∃ s, sid = Some s ∧ transports !! s = None)
   ∨ (sid = None ∧ (req_verb req = POST → isInitializeRequest (req_body req) = false))) →
  answers (mcp sdk transports req) 400 (-32000).


(** Every outbound call of a tool invocation is given a timeout: an abort
    [signal], the one means [fetch] has to bound a call. *)
Definition outbound_calls_time_bounded (network : Fetch) (cfg : Config)
    (name : string) (args : option (list (string * Js.value))) : Prop :=
  ∀ url init, (url, init) ∈ calls (callTool network cfg name args) →
              is_Some (init_signal init).

(** POST without session id header and with an initialize body, whatever
    else the body holds: a session is created, that is, the registry holds
    an entry afterwards that it did not hold before. *)
Definition initialize_creates_session_as_specified (sdk : Sdk)
    (transports : gmap string Transport) (req : Request) : Prop :=
  req_headers req !! "mcp-session-id" = None →
  (∃ props, req_body req = Js.Obj props
            ∧ Js.own props "method" = Js.Prim (Js.Str "initialize")) →
  ∃ sid, transports !! sid = None
         ∧ is_Some (transports_after (post_mcp sdk transports req) !! sid).

(** ** Sample inputs *)

Definition event (i : Js.prim) : Event := {| id := i; message := Js.Obj [] |}.

Definition store_of (sid : string) (es : list Event) : InMemoryEventStore.t :=
  InMemoryEventStore.addEvents InMemoryEventStore.new sid es.

Definition request (verb : Verb) (hdrs : list (string * string))
    (body : Js.value) : Request :=
  {| req_verb := verb; req_path := "/CiscoMCPPods/mcp";
     req_headers := list_to_map hdrs; req_body := body |}.

Definition initialize_body : Js.value :=
  Js.Obj [ ("jsonrpc", Js.Prim (Js.Str "2.0")); ("id", Js.Prim (Js.Num 0));
           ("method", Js.Prim (Js.Str "initialize"));
           ("params", Js.Obj []) ].

Definition tools_list_body : Js.value :=
  Js.Obj [ ("jsonrpc", Js.Prim (Js.Str "2.0")); ("id", Js.Prim (Js.Num 1));
           ("method", Js.Prim (Js.Str "tools/list")) ].

(** An SDK that accepts every request: it initialises a transport that
    has no session id yet under the id ["sess-1"], and answers 200. *)
Definition sdk_accepting : Sdk := fun transport _ =>
  {| initialized := match sessionId transport with
                    | None => Some "sess-1"
                    | Some _ => None
                    end;
     closed := false;
     ending := Responded {| status := 200; payload := Json (Js.Obj []) |} |}.

(** An initialize call in a JSON-RPC 1.0 envelope, without [id] and
    [params]. *)
Definition initialize_body_v1 : Js.value :=
  Js.Obj [ ("jsonrpc", Js.Prim (Js.Str "1.0"));
           ("method", Js.Prim (Js.Str "initialize")) ].

(** An SDK that checks the envelope first, as the MCP SDK's transport
    parses a POST body against its JSON-RPC message schema before it
    looks at the method: a body whose [jsonrpc] is not the string ["2.0"]
    is answered 400 with code -32700 and no callback fires; any other
    body is treated as [sdk_accepting] treats it. *)
Definition sdk_checking_envelope : Sdk := fun transport req =>
  let parse_error :=
    {| initialized := None;
       closed := false;
       ending := Responded {| status := 400;
                              payload := Json (jsonrpc_error (-32700) "Parse error") |} |} in
  match Js.member (req_body req) "jsonrpc" with
  | Some version =>
      if Js.is_string version "2.0" then sdk_accepting transport req
      else parse_error
  | None => parse_error
  end.

(** A backend that does not answer in time: every [fetch] rejects. *)
Definition timeout_error : Error :=
  {| err_message := "The operation was aborted due to timeout" |}.

Definition network_timing_out : Fetch := fun _ _ => Throw timeout_error.

Definition config_with_key (key : string) : Config :=
  config {[ "MCP_API_KEY" := key ]}.

(** ** Startup checks, the middleware chain, and further vocabulary *)

(** The warnings [src/config.js] prints when it validates the
    configuration, in the order it prints them. *)
Definition warnings (cfg : Config) : list string :=
  (if String.eqb (authMode cfg) "apikey"
      && negb (Js.truthy_prim (Js.of_option (apiKeyPods cfg)))
   then [ "Warning: API_KEY_PODS is not configured in .env file" ] else [])
  ++ (if String.eqb (authMode cfg) "jwt"
         && negb (Js.truthy_prim (Js.of_option (jwtToken cfg)))
      then [ "Warning: JWT_TOKEN is not configured in .env file" ] else [])
  ++ (if negb (Js.truthy_prim (Js.of_option (mcpApiKey cfg)))
      then [ "Warning: MCP_API_KEY is not configured in .env file - MCP server authentication will be disabled" ]
      else []).

(** A request on its way to an [/mcp] route: [app.use(authenticateApiKey)]
    is registered before the routes, so the handler runs only when the
    middleware calls [next()]. *)
Definition guarded_mcp (cfg : Config) (sdk : Sdk)
    (transports : gmap string Transport) (req : Request) : Handled :=
  match authenticateApiKey cfg req with
  | Next => mcp sdk transports req
  | Reply r =>
      {| transports_after := transports; created := None; response := Some r |}
  end.

(** Every [fetch] call a computation makes satisfies [P]. *)
Definition all_calls {A} (P : string → RequestInit → Prop) (m : M A) : Prop :=
  Forall (fun call => P call.1 call.2) (calls m).

(** Every registered transport is registered under its own session id. *)
Definition keyed (transports : gmap string Transport) : Prop :=
  ∀ sid t, transports !! sid = Some t → sessionId t = Some sid.


(** * Properties *)

(** ** Event store *)

Section FindIndex.

Context {A : Type} (p : A → bool).

Lemma findIndex_from_absent (l : list A) (i : Z) :
  (∀ x, x ∈ l → p x = false) →
  InMemoryEventStore.findIndex_from p l i = -1.
Proof.
  revert i. induction l as [|x l IH]; intros i Hnone; simpl; [done|].
  rewrite (Hnone x) by left.
  apply IH. intros y Hy. apply Hnone. by right.
Qed.

Lemma findIndex_from_first (pre : list A) (e : A) (post : list A) (i : Z) :
  (∀ x, x ∈ pre → p x = false) → p e = true →
  InMemoryEventStore.findIndex_from p (pre ++ e :: post) i
  = i + Z.of_nat (length pre).
Proof.
  revert i. induction pre as [|x pre IH]; intros i Hpre He; simpl.
  - rewrite He. lia.
  - rewrite (Hpre x) by left.
    rewrite IH; [lia| |done].
    intros y Hy. apply Hpre. by right.
Qed.

End FindIndex.

Lemma strict_eq_false (a b : Js.prim) : a ≠ b → Js.strict_eq a b = false.
Proof. intros H. unfold Js.strict_eq. by apply bool_decide_eq_false. Qed.

Lemma strict_eq_refl (a : Js.prim) : Js.strict_eq a a = true.
Proof. unfold Js.strict_eq. by apply bool_decide_eq_true. Qed.

Lemma addEvent_log (store : InMemoryEventStore.t) (sid : string) (e : Event) :
  InMemoryEventStore.log (InMemoryEventStore.addEvent store sid e) sid
  = InMemoryEventStore.log store sid ++ [e].
Proof.
  unfold InMemoryEventStore.log, InMemoryEventStore.addEvent. simpl.
  rewrite lookup_alter_eq.
  case_bool_decide as Hhas.
  - destruct Hhas as [l Hl]. by rewrite Hl.
  - rewrite lookup_insert_eq.
    destruct (InMemoryEventStore.events store !! sid) eqn:Hl; [|done].
    exfalso. apply Hhas. eauto.
Qed.

Lemma addEvent_log_other (store : InMemoryEventStore.t) (sid other : string)
    (e : Event) :
  other ≠ sid →
  InMemoryEventStore.log (InMemoryEventStore.addEvent store sid e) other
  = InMemoryEventStore.log store other.
Proof.
  intros Hne.
  unfold InMemoryEventStore.log, InMemoryEventStore.addEvent. simpl.
  rewrite lookup_alter_ne by done.
  case_bool_decide; [done|].
  by rewrite lookup_insert_ne.
Qed.

Lemma addEvents_log (es : list Event) (store : InMemoryEventStore.t)
    (sid : string) :
  InMemoryEventStore.log (InMemoryEventStore.addEvents store sid es) sid
  = InMemoryEventStore.log store sid ++ es.
Proof.
  unfold InMemoryEventStore.addEvents.
  induction es as [|e es IH] using rev_ind.
  - by rewrite app_nil_r.
  - rewrite foldl_snoc, addEvent_log, IH. by rewrite app_assoc.
Qed.

Lemma addEvents_log_other (es : list Event) (store : InMemoryEventStore.t)
    (sid other : string) :
  other ≠ sid →
  InMemoryEventStore.log (InMemoryEventStore.addEvents store sid es) other
  = InMemoryEventStore.log store other.
Proof.
  intros Hne. unfold InMemoryEventStore.addEvents.
  induction es as [|e es IH] using rev_ind; [done|].
  by rewrite foldl_snoc, addEvent_log_other.
Qed.

Lemma store_of_log (sid : string) (es : list Event) :
  InMemoryEventStore.log (store_of sid es) sid = es.
Proof. unfold store_of. by rewrite addEvents_log. Qed.

(** C2, as worded, fails when the id handed in is falsy: replaying after
    the event with id [0] (or with the empty string as id) returns the
    whole log, that event included. *)
Lemma replay_after_falsy_id_returns_all :
  ¬ replay_as_specified
      (store_of "s" [event (Js.Num 0); event (Js.Num 1)]) "s" (Js.Num 0)
  ∧ ¬ replay_as_specified
      (store_of "s" [event (Js.Str ""); event (Js.Str "b")]) "s" (Js.Str "").
Proof.
  split; intros [_ Hsuffix].
  - specialize (Hsuffix [] (event (Js.Num 0)) [event (Js.Num 1)]).
    rewrite store_of_log in Hsuffix.
    discriminate Hsuffix; [done|done|done|]. intros e' He'. inversion He'.
  - specialize (Hsuffix [] (event (Js.Str "")) [event (Js.Str "b")]).
    rewrite store_of_log in Hsuffix.
    discriminate Hsuffix; [done|done|done|]. intros e' He'. inversion He'.
Qed.

(** C2, amended: [getEventsAfter] returns the stored log unchanged when
    the id handed in is falsy ([undefined], [null], [0], the empty string,
    [false]) or no stored event has it, and otherwise the events strictly
    after the first stored event with that id, in stored order. *)
Theorem getEventsAfter_replay (store : InMemoryEventStore.t) (sid : string)
    (X : Js.prim) :
  let stored := InMemoryEventStore.log store sid in
  ((Js.truthy_prim X = false ∨ ∀ e, e ∈ stored → id e ≠ X) →
   InMemoryEventStore.getEventsAfter store sid X = stored)
  ∧ (∀ pre e post,
       Js.truthy_prim X = true →
       stored = pre ++ e :: post → id e = X → (∀ e', e' ∈ pre → id e' ≠ X) →
       InMemoryEventStore.getEventsAfter store sid X = post).
Proof.
  unfold InMemoryEventStore.getEventsAfter, InMemoryEventStore.log.
  cbv zeta. split.
  - intros [Hfalsy | Hunknown].
    + by rewrite Hfalsy.
    + destruct (Js.truthy_prim X); [simpl|done].
      unfold InMemoryEventStore.findIndex.
      rewrite findIndex_from_absent; [done|].
      intros e He. apply strict_eq_false. by apply Hunknown.
  - intros pre e post Htruthy Hlog Hid Hpre.
    rewrite Htruthy, Hlog. simpl.
    unfold InMemoryEventStore.findIndex.
    rewrite findIndex_from_first.
    + destruct (Z.eqb_spec (0 + Z.of_nat (length pre)) (-1)) as [Hneg|_]; [lia|].
      unfold InMemoryEventStore.slice.
      replace (Z.to_nat (0 + Z.of_nat (length pre) + 1)) with (S (length pre)) by lia.
      replace (S (length pre)) with (length (pre ++ [e])) by (rewrite length_app; simpl; lia).
      rewrite (cons_middle e pre post), app_assoc.
      by rewrite drop_app_length.
    + intros x Hx. apply strict_eq_false. by apply Hpre.
    + subst X. apply strict_eq_refl.
Qed.

Lemma getEventsAfter_replay_witness :
  InMemoryEventStore.getEventsAfter
    (store_of "s" [event (Js.Str "a"); event (Js.Str "b"); event (Js.Str "c")])
    "s" (Js.Str "b")
  = [event (Js.Str "c")]
  ∧ InMemoryEventStore.getEventsAfter
      (store_of "s" [event (Js.Str "a"); event (Js.Str "b")]) "s" (Js.Str "z")
    = [event (Js.Str "a"); event (Js.Str "b")].
Proof.
  split.
  - apply (proj2 (getEventsAfter_replay
                    (store_of "s" [event (Js.Str "a"); event (Js.Str "b");
                                   event (Js.Str "c")])
                    "s" (Js.Str "b"))
             [event (Js.Str "a")] (event (Js.Str "b")) [event (Js.Str "c")]).
    + reflexivity.
    + vm_compute. reflexivity.
    + reflexivity.
    + intros e' He'. apply list_elem_of_singleton in He'. subst e'.
      simpl. discriminate.
  - apply (proj1 (getEventsAfter_replay
                    (store_of "s" [event (Js.Str "a"); event (Js.Str "b")])
                    "s" (Js.Str "z"))).
    right. intros e He.
    vm_compute in He.
    apply elem_of_cons in He as [->|He]; [simpl; discriminate|].
    apply list_elem_of_singleton in He. subst e. simpl. discriminate.
Defined.

(** C7, as worded, fails: [addEvent] stores the event it is handed and
    assigns no id, so handing it the same event twice repeats an id. *)
Lemma addEvent_repeats_supplied_id :
  ¬ ids_strictly_increasing
      (InMemoryEventStore.addEvents InMemoryEventStore.new "s"
         [event (Js.Num 1); event (Js.Num 1)]) "s".
Proof.
  intros [_ Hnodup].
  rewrite addEvents_log in Hnodup. simpl in Hnodup.
  apply NoDup_cons in Hnodup as [Hnotin _].
  apply Hnotin. left.
Qed.

(** C7, amended: [addEvent] appends the event it is handed, with the id
    the caller gave it, to the end of the session's log and leaves every
    other session's log alone.  After a batch of appends the ids of the
    session are the ids it had followed by the supplied ids in append
    order; they are strictly increasing and free of repeats exactly when
    that sequence is. *)
Theorem addEvents_keeps_supplied_ids (store : InMemoryEventStore.t)
    (sid : string) (es : list Event) :
  let after := InMemoryEventStore.addEvents store sid es in
  let before_ids := InMemoryEventStore.ids (InMemoryEventStore.log store sid) in
  InMemoryEventStore.log after sid = InMemoryEventStore.log store sid ++ es
  ∧ InMemoryEventStore.ids (InMemoryEventStore.log after sid)
    = before_ids ++ InMemoryEventStore.ids es
  ∧ (ids_strictly_increasing after sid
     ↔ StronglySorted id_lt (before_ids ++ InMemoryEventStore.ids es)
       ∧ NoDup (before_ids ++ InMemoryEventStore.ids es))
  ∧ (∀ other, other ≠ sid →
       InMemoryEventStore.log after other = InMemoryEventStore.log store other).
Proof.
  cbv zeta.
  assert (Hids : InMemoryEventStore.ids
                   (InMemoryEventStore.log
                      (InMemoryEventStore.addEvents store sid es) sid)
                 = InMemoryEventStore.ids (InMemoryEventStore.log store sid)
                   ++ InMemoryEventStore.ids es).
  { rewrite addEvents_log. unfold InMemoryEventStore.ids. apply map_app. }
  split; [apply addEvents_log|].
  split; [exact Hids|].
  split.
  - unfold ids_strictly_increasing. by rewrite Hids.
  - intros other Hne. by apply addEvents_log_other.
Qed.

Lemma addEvents_keeps_supplied_ids_witness :
  InMemoryEventStore.log
    (InMemoryEventStore.addEvents (store_of "a" [event (Js.Num 7)]) "b"
       [event (Js.Num 1); event (Js.Num 2)]) "a"
  = [event (Js.Num 7)].
Proof.
  rewrite (proj2 (proj2 (proj2
             (addEvents_keeps_supplied_ids (store_of "a" [event (Js.Num 7)]) "b"
                [event (Js.Num 1); event (Js.Num 2)]))) "a").
  - apply store_of_log.
  - discriminate.
Defined.

(** ** Auth gate *)

Lemma truthy_Str (s : string) : Js.truthy_prim (Js.Str s) = true ↔ s ≠ "".
Proof.
  simpl. destruct (String.eqb_spec s ""); simpl; split; congruence.
Qed.

Lemma truthy_of_option_false (o : option string) :
  Js.truthy_prim (Js.of_option o) = false ↔ o = None ∨ o = Some "".
Proof.
  destruct o as [s|]; simpl.
  - destruct (String.eqb_spec s ""); simpl; split.
    + intros _. right. congruence.
    + done.
    + done.
    + intros [?|?]; congruence.
  - split; [by left|done].
Qed.

Lemma truthy_of_option_true (o : option string) :
  Js.truthy_prim (Js.of_option o) = true ↔ ∃ s, o = Some s ∧ s ≠ "".
Proof.
  destruct o as [s|]; simpl.
  - destruct (String.eqb_spec s ""); simpl; split.
    + done.
    + intros (s' & [= <-] & Hne). done.
    + intros _. eauto.
    + done.
  - split; [done|]. intros (s & ? & _). done.
Qed.

(** C4, as worded, fails on an empty header value: it is a value that
    does not match the key, yet the gate answers 401 (missing header)
    rather than 403. *)
Lemma empty_api_key_header_counts_as_missing :
  ¬ gate_as_specified (config_with_key "K")
      (request POST [("x-api-key", "")] tools_list_body).
Proof.
  intros (_ & Hkey & _).
  destruct (Hkey "K") as (_ & Hmismatch & _).
  - reflexivity.
  - split; vm_compute; discriminate.
  - destruct (Hmismatch "") as (r & Hreply & Hstatus & _).
    + reflexivity.
    + discriminate.
    + vm_compute in Hreply. injection Hreply as <-.
      vm_compute in Hstatus. discriminate.
Qed.

(** C4, amended: the gate lets every request through when no key, or an
    empty key, is configured.  With a non-empty key configured, a request
    to a protected path is answered 401 / -32001 when the [x-api-key]
    header is absent or empty, 403 / -32002 when it is non-empty and
    differs from the key, and goes through when it equals the key.
    Requests whose path is the health path or [/] always go through. *)
Theorem authenticateApiKey_gate (cfg : Config) (req : Request) :
  let header := req_headers req !! "x-api-key" in
  let gate := authenticateApiKey cfg req in
  (mcpApiKey cfg = None ∨ mcpApiKey cfg = Some "" → gate = Next)
  ∧ (∀ key, mcpApiKey cfg = Some key → key ≠ "" → protected_path cfg req →
       (header = None ∨ header = Some "" → rejects gate 401 (-32001))
       ∧ (∀ v, header = Some v → v ≠ "" → v ≠ key → rejects gate 403 (-32002))
       ∧ (header = Some key → gate = Next))
  ∧ (¬ protected_path cfg req → gate = Next).
Proof.
  cbv zeta. unfold authenticateApiKey, protected_path.
  destruct (String.eqb_spec (req_path req) (serverPath cfg +:+ "/health"))
    as [Hhealth|Hhealth]; simpl.
  { split; [done|]. split; [|done]. intros key _ _ [Hne _]. done. }
  destruct (String.eqb_spec (req_path req) "/") as [Hroot|Hroot]; simpl.
  { split; [done|]. split; [|done]. intros key _ _ [_ Hne]. done. }
  split; [|split].
  - intros Hoff. apply truthy_of_option_false in Hoff. by rewrite Hoff.
  - intros key Hkey Hnonempty _.
    assert (Hon : Js.truthy_prim (Js.of_option (mcpApiKey cfg)) = true).
    { apply truthy_of_option_true. eauto. }
    rewrite Hon. simpl. split; [|split].
    + intros Hmissing. apply truthy_of_option_false in Hmissing.
      rewrite Hmissing. simpl. eexists. split; [reflexivity|]. by split.
    + intros v Hv Hvne Hdiff.
      assert (Hgiven : Js.truthy_prim
                         (Js.of_option (req_headers req !! "x-api-key")) = true).
      { apply truthy_of_option_true. eauto. }
      rewrite Hgiven. simpl.
      rewrite Hv, Hkey. simpl.
      rewrite strict_eq_false by congruence. simpl.
      eexists. split; [reflexivity|]. by split.
    + intros Hsame.
      assert (Hgiven : Js.truthy_prim
                         (Js.of_option (req_headers req !! "x-api-key")) = true).
      { apply truthy_of_option_true. eauto. }
      rewrite Hgiven. simpl.
      rewrite Hsame, Hkey. simpl.
      by rewrite strict_eq_refl.
  - intros Hopen. exfalso. apply Hopen. by split.
Qed.

Lemma authenticateApiKey_gate_witness :
  rejects (authenticateApiKey (config_with_key "K")
             (request POST [] tools_list_body)) 401 (-32001)
  ∧ rejects (authenticateApiKey (config_with_key "K")
               (request POST [("x-api-key", "wrong")] tools_list_body))
      403 (-32002)
  ∧ authenticateApiKey (config_with_key "K")
      (request POST [("x-api-key", "K")] tools_list_body) = Next
  ∧ authenticateApiKey (config ∅) (request POST [] tools_list_body) = Next.
Proof.
  split; [|split; [|split]].
  - destruct (proj1 (proj2 (authenticateApiKey_gate (config_with_key "K")
                              (request POST [] tools_list_body))) "K")
      as (Hmissing & _ & _).
    + reflexivity.
    + discriminate.
    + split; vm_compute; discriminate.
    + apply Hmissing. left. reflexivity.
  - destruct (proj1 (proj2 (authenticateApiKey_gate (config_with_key "K")
                              (request POST [("x-api-key", "wrong")]
                                 tools_list_body))) "K")
      as (_ & Hmismatch & _).
    + reflexivity.
    + discriminate.
    + split; vm_compute; discriminate.
    + apply (Hmismatch "wrong"); [reflexivity|discriminate|discriminate].
  - destruct (proj1 (proj2 (authenticateApiKey_gate (config_with_key "K")
                              (request POST [("x-api-key", "K")]
                                 tools_list_body))) "K")
      as (_ & _ & Hmatch).
    + reflexivity.
    + discriminate.
    + split; vm_compute; discriminate.
    + apply Hmatch. reflexivity.
  - apply (proj1 (authenticateApiKey_gate (config ∅)
                    (request POST [] tools_list_body))).
    left. reflexivity.
Defined.

(** ** Computations: results and recorded calls *)

Section Computations.

Context {A : Type}.

Lemma try_catch_caught (m : M A) (handler : Error → M A) (e : Error) :
  result m = Throw e → result (try_catch m handler) = result (handler e).
Proof.
  destruct m as [made [a|e']]; simpl; intros [= <-] || intros [=].
  by destruct (handler e').
Qed.

Lemma try_catch_passed (m : M A) (handler : Error → M A) (a : A) :
  result m = Return a → try_catch m handler = m.
Proof. destruct m as [made [a'|e]]; simpl; [done|intros [=]]. Qed.

Lemma try_catch_settles (m : M A) (handler : Error → M A) :
  (∀ e, ∃ a, result (handler e) = Return a) →
  ∃ a, result (try_catch m handler) = Return a.
Proof.
  intros Hhandler. destruct m as [made [a|e]]; simpl; [eauto|].
  destruct (Hhandler e) as [a Ha]. destruct (handler e) as [more c].
  simpl in *. eauto.
Qed.

Lemma try_catch_calls (m : M A) (handler : Error → M A) :
  (∀ e, calls (handler e) = []) → calls (try_catch m handler) = calls m.
Proof.
  destruct m as [made [a|e]]; simpl; intros Hhandler; [done|].
  specialize (Hhandler e). destruct (handler e). simpl in *. subst.
  apply app_nil_r.
Qed.

End Computations.

Lemma untimed_ret {A} (a : A) : untimed (ret a).
Proof. constructor. Qed.

Lemma untimed_throw {A} (e : Error) : untimed (@throw A e).
Proof. constructor. Qed.

Lemma untimed_lift {A} (c : completion A) : untimed (lift c).
Proof. constructor. Qed.

Lemma untimed_read (v : Js.value) (key : string) : untimed (read v key).
Proof. unfold read. destruct (Js.member v key); constructor. Qed.

Lemma untimed_bind {A B} (m : M A) (k : A → M B) :
  untimed m → (∀ a, untimed (k a)) → untimed (m ≫= k).
Proof.
  unfold untimed, mbind, M_bind.
  destruct m as [made [a|e]]; simpl; intros Hm Hk; [|done].
  specialize (Hk a). destruct (k a) as [more c]. simpl in *.
  by apply Forall_app.
Qed.

Lemma untimed_try_catch {A} (m : M A) (handler : Error → M A) :
  untimed m → (∀ e, untimed (handler e)) → untimed (try_catch m handler).
Proof.
  unfold untimed.
  destruct m as [made [a|e]]; simpl; intros Hm Hh; [done|].
  specialize (Hh e). destruct (handler e) as [more c]. simpl in *.
  by apply Forall_app.
Qed.

Lemma untimed_text_of (v : Js.value) : untimed (text_of v).
Proof. unfold text_of. destruct (Js.ToString v); constructor. Qed.

Lemma untimed_destructure (args : option (list (string * Js.value))) :
  untimed (destructure_collection args).
Proof. destruct args; constructor. Qed.

Create HintDb untimed.

#[local] Hint Resolve untimed_ret untimed_throw untimed_lift untimed_read
  untimed_text_of untimed_destructure : untimed.

Ltac untimed_steps :=
  repeat first
    [ solve [ auto with untimed ]
    | match goal with |- untimed (if ?b then _ else _) => destruct b end
    | match goal with |- untimed (let '(_, _) := ?p in _) => destruct p end
    | apply untimed_bind; [| intros ? ]
    | apply untimed_try_catch; [| intros ? ] ].

(** ** The REST client *)

Section Client.

Variable network : Fetch.
Variable this : PodsClient.t.

Lemma makeRequest_calls (url : string) (options : RequestInit) :
  calls (PodsClient.makeRequest network this url options)
  = [(url, PodsClient.fetch_init this options)].
Proof.
  unfold PodsClient.makeRequest, PodsClient.fetch, mbind, M_bind, lift, read.
  destruct (network url (PodsClient.fetch_init this options)) as [response|e];
    simpl; [|done].
  destruct (resp_json response) as [data|e]; simpl; [|done].
  destruct (resp_ok response); simpl; [done|].
  destruct (Js.member data "message") as [message|]; simpl; [|done].
  unfold text_of. destruct (Js.truthy message); [|done].
  by destruct (Js.ToString message).
Qed.

Lemma makeRequest_untimed (url method : string) (body : option JsonText) :
  untimed (PodsClient.makeRequest network this url
             (PodsClient.options_for method body)).
Proof.
  unfold untimed. rewrite makeRequest_calls.
  constructor; [reflexivity|constructor].
Qed.

Lemma makeRequest_network_fails (url : string) (options : RequestInit)
    (e : Error) :
  (∀ url init, network url init = Throw e) →
  PodsClient.makeRequest network this url options
  = ([(url, PodsClient.fetch_init this options)], Throw e).
Proof.
  intros Hfail.
  unfold PodsClient.makeRequest, PodsClient.fetch, mbind, M_bind.
  by rewrite Hfail.
Qed.

End Client.

#[local] Hint Resolve makeRequest_untimed : untimed.

(** ** Tool and resource handlers *)

Section Handlers.

Variable network : Fetch.
Variable cfg : Config.

Lemma callTool_switch_untimed (name : string)
    (args : option (list (string * Js.value))) :
  untimed (callTool_switch network cfg name args).
Proof.
  unfold callTool_switch, PodsClient.getPodKeyword, PodsClient.updatePodKeyword,
    PodsClient.getAllPods, PodsClient.getPodByNumber, PodsClient.createPod,
    PodsClient.updatePod, PodsClient.deletePod.
  cbv zeta. untimed_steps.
Qed.

Lemma callTool_untimed (name : string)
    (args : option (list (string * Js.value))) :
  untimed (callTool network cfg name args).
Proof.
  unfold callTool. apply untimed_try_catch.
  - apply callTool_switch_untimed.
  - intros e. apply untimed_ret.
Qed.

Lemma readResource_untimed (uri : string) :
  untimed (readResource network cfg uri).
Proof.
  unfold readResource, readResource_switch, PodsClient.getPodKeyword.
  cbv zeta. untimed_steps.
Qed.

Lemma unknown_tool_falls_through (name : string)
    (args : option (list (string * Js.value))) :
  name ∉ tool_catalog →
  callTool_switch network cfg name args
  = throw {| err_message := "Unknown tool: " +:+ name |}.
Proof.
  intros Hunknown. unfold callTool_switch. cbv zeta.
  repeat match goal with
         | |- context [String.eqb name ?lit] =>
             destruct (String.eqb_spec name lit) as [->|_];
             [exfalso; apply Hunknown; vm_compute; set_solver|]
         end.
  reflexivity.
Qed.


(** When every [fetch] rejects with [e], the [try] block of the tool
    handler throws: [e] itself once a call went out, a [TypeError] or the
    unknown-tool error before any call. *)
Lemma callTool_switch_network_fails (name : string)
    (args : option (list (string * Js.value))) (e : Error) :
  (∀ url init, network url init = Throw e) →
  ∃ e', result (callTool_switch network cfg name args) = Throw e'
        ∧ (calls (callTool_switch network cfg name args) ≠ [] → e' = e).
Proof.
  intros Hfail.
  unfold callTool_switch, PodsClient.getPodKeyword, PodsClient.updatePodKeyword,
    PodsClient.getAllPods, PodsClient.getPodByNumber, PodsClient.createPod,
    PodsClient.updatePod, PodsClient.deletePod.
  cbv zeta.
  repeat match goal with
         | |- context [String.eqb name ?lit] =>
             destruct (String.eqb_spec name lit) as [->|_]
         end;
    destruct args as [props|];
    unfold read, destructure_collection, text_of, mbind, M_bind; simpl;
    repeat match goal with
           | |- context [Js.ToString ?v] => destruct (Js.ToString v); simpl
           end;
    rewrite ?(makeRequest_network_fails network _ _ _ e Hfail); simpl;
    eexists; (split; [reflexivity|]); simpl; congruence.
Qed.

End Handlers.

(** C3: a [tools/call] never fails at the transport level.  The handler
    always returns, so the JSON-RPC reply is a success envelope.  For a
    name outside the tool catalog the result is the one whose single text
    item is the JSON of [{ error: "Unknown tool: <name>", details: "Failed
    to execute API request." }] and whose [isError] is [true], and no
    backend call is made.  Any exception raised while a registered tool
    runs is turned into the result of the same shape carrying that
    exception's message; in particular, when the backend client's call
    fails, the result carries the message of that failure. *)
Theorem callTool_downgrades_failures (network : Fetch) (cfg : Config)
    (name : string) (args : option (list (string * Js.value))) :
  let failure := fun msg : string =>
    {| content :=
         [ {| content_type := "text";
              content_text :=
                JSON_stringify
                  (Js.Obj [ ("error", Js.Prim (Js.Str msg));
                            ("details",
                             Js.Prim (Js.Str "Failed to execute API request.")) ])
                  2 |} ];
       isError := Some true |} in
  (∃ r, result (callTool network cfg name args) = Return r
        ∧ reply (result (callTool network cfg name args)) = RpcResult r)
  ∧ (name ∉ tool_catalog →
     callTool network cfg name args
     = ([], Return (failure ("Unknown tool: " +:+ name)))
     ∧ reply (result (callTool network cfg name args))
       = RpcResult (failure ("Unknown tool: " +:+ name)))
  ∧ (∀ e, result (callTool_switch network cfg name args) = Throw e →
          result (callTool network cfg name args)
          = Return (failure (err_message e))
          ∧ reply (result (callTool network cfg name args))
            = RpcResult (failure (err_message e)))
  ∧ (∀ e, (∀ url init, network url init = Throw e) →
          calls (callTool network cfg name args) ≠ [] →
          result (callTool network cfg name args)
          = Return (failure (err_message e))).
Proof.
  cbv zeta. split; [|split; [|split]].
  - destruct (try_catch_settles (callTool_switch network cfg name args)
                (fun error => ret (tool_error (err_message error))))
      as [r Hr]; [intros e; by eexists|].
    exists r. unfold callTool. by rewrite Hr.
  - intros Hunknown. unfold callTool.
    rewrite unknown_tool_falls_through by done. split; reflexivity.
  - intros e He.
    assert (Hresult : result (callTool network cfg name args)
                      = Return (tool_error (err_message e))).
    { unfold callTool. by rewrite (try_catch_caught _ _ e He). }
    rewrite Hresult. split; reflexivity.
  - intros e Hfail Hcalled.
    destruct (callTool_switch_network_fails network cfg name args e Hfail)
      as (e' & Hthrow & Hsame).
    unfold callTool in *. rewrite try_catch_calls in Hcalled by done.
    rewrite (try_catch_caught _ _ e' Hthrow), (Hsame Hcalled). reflexivity.
Qed.

Lemma callTool_downgrades_failures_witness :
  callTool network_timing_out (config ∅) "nonexistent_tool" None
  = ([], Return
           {| content :=
                [ {| content_type := "text";
                     content_text :=
                       JSON_stringify
                         (Js.Obj
                            [ ("error",
                               Js.Prim (Js.Str "Unknown tool: nonexistent_tool"));
                              ("details",
                               Js.Prim (Js.Str "Failed to execute API request.")) ])
                         2 |} ];
              isError := Some true |})
  ∧ result (callTool network_timing_out (config ∅) "get_pod_keyword" None)
    = Return
        {| content :=
             [ {| content_type := "text";
                  content_text :=
                    JSON_stringify
                      (Js.Obj
                         [ ("error",
                            Js.Prim (Js.Str "The operation was aborted due to timeout"));
                           ("details",
                            Js.Prim (Js.Str "Failed to execute API request.")) ])
                      2 |} ];
           isError := Some true |}.
Proof.
  split.
  - apply (proj1 (proj2 (callTool_downgrades_failures network_timing_out
                           (config ∅) "nonexistent_tool" None))).
    apply (bool_decide_unpack _). vm_compute. exact I.
  - apply (proj2 (proj2 (proj2 (callTool_downgrades_failures network_timing_out
                                  (config ∅) "get_pod_keyword" None)))
             timeout_error).
    + reflexivity.
    + vm_compute. discriminate.
Defined.




(** C9, as worded, fails: the client hands [fetch] no timeout; the call a
    [get_pod_keyword] invocation makes carries no [signal]. *)
Lemma get_pod_keyword_call_has_no_timeout :
  ¬ outbound_calls_time_bounded network_timing_out (config ∅)
      "get_pod_keyword" None.
Proof.
  intros Hbounded.
  destruct (calls (callTool network_timing_out (config ∅) "get_pod_keyword" None))
    as [|[url init] rest] eqn:Hcalls; [vm_compute in Hcalls; discriminate|].
  destruct (Hbounded url init) as [ms Hsignal].
  - rewrite Hcalls. left.
  - vm_compute in Hcalls. injection Hcalls as _ <- _.
    discriminate Hsignal.
Qed.

(** C9, amended: the client configures no timeout: no [fetch] call a tool
    invocation or a resource read makes carries a [signal].  When the
    outbound call fails, as it does when the runtime gives up on a backend
    that does not answer, the tool handler still returns, and its result
    is the [isError: true] result carrying the failure's message. *)
Theorem outbound_calls_untimed_failures_downgraded (network : Fetch)
    (cfg : Config) (name : string) (args : option (list (string * Js.value))) :
  (∀ url init, (url, init) ∈ calls (callTool network cfg name args) →
               init_signal init = None)
  ∧ (∀ uri url init, (url, init) ∈ calls (readResource network cfg uri) →
                     init_signal init = None)
  ∧ (∀ e, (∀ url init, network url init = Throw e) →
          ∃ msg, result (callTool network cfg name args) = Return (tool_error msg)
                 ∧ reply (result (callTool network cfg name args))
                   = RpcResult (tool_error msg)
                 ∧ (calls (callTool network cfg name args) ≠ [] →
                    msg = err_message e)).
Proof.
  split; [|split].
  - intros url init Hin.
    pose proof (callTool_untimed network cfg name args) as Huntimed.
    unfold untimed in Huntimed. rewrite Forall_forall in Huntimed.
    apply (Huntimed (url, init) Hin).
  - intros uri url init Hin.
    pose proof (readResource_untimed network cfg uri) as Huntimed.
    unfold untimed in Huntimed. rewrite Forall_forall in Huntimed.
    apply (Huntimed (url, init) Hin).
  - intros e Hfail.
    destruct (callTool_switch_network_fails network cfg name args e Hfail)
      as (e' & Hthrow & Hsame).
    exists (err_message e').
    assert (Hresult : result (callTool network cfg name args)
                      = Return (tool_error (err_message e'))).
    { unfold callTool. by rewrite (try_catch_caught _ _ e' Hthrow). }
    split; [exact Hresult|]. split; [by rewrite Hresult|].
    unfold callTool. rewrite try_catch_calls by done.
    intros Hcalled. by rewrite (Hsame Hcalled).
Qed.

Lemma outbound_calls_untimed_failures_downgraded_witness :
  ∃ msg,
    result (callTool network_timing_out (config ∅) "delete_pod"
              (Some [ ("collection", Js.Prim (Js.Str "testpods"));
                      ("number", Js.Prim (Js.Num 3)) ]))
    = Return (tool_error msg)
    ∧ msg = "The operation was aborted due to timeout".
Proof.
  destruct (proj2 (proj2 (outbound_calls_untimed_failures_downgraded
                            network_timing_out (config ∅) "delete_pod"
                            (Some [ ("collection", Js.Prim (Js.Str "testpods"));
                                    ("number", Js.Prim (Js.Num 3)) ])))
              timeout_error)
    as (msg & Hresult & _ & Hmsg).
  - reflexivity.
  - exists msg. split; [exact Hresult|].
    apply Hmsg. vm_compute. discriminate.
Defined.

(** ** Sessions *)

Lemma session_slot_falsy (transports : gmap string Transport)
    (sid : option string) :
  sid = None ∨ sid = Some "" → session_slot transports sid = Js.Missing.
Proof. by intros [->| ->]. Qed.

Lemma session_slot_unknown (transports : gmap string Transport) (s : string) :
  transports !! s = None → s ∉ Js.object_prototype_keys →
  session_slot transports (Some s) = Js.Missing.
Proof.
  intros Hnone Hown. unfold session_slot, Js.dict_get.
  destruct (Js.truthy_prim (Js.Str s)); [|done].
  rewrite Hnone. by rewrite bool_decide_eq_false_2.
Qed.

Lemma session_slot_own (transports : gmap string Transport)
    (sid : option string) (t : Transport) :
  session_slot transports sid = Js.Own t →
  ∃ s, sid = Some s ∧ s ≠ "" ∧ transports !! s = Some t.
Proof.
  unfold session_slot, Js.dict_get.
  destruct sid as [s|]; [|done].
  destruct (Js.truthy_prim (Js.Str s)) eqn:Htruthy; [|done].
  apply truthy_Str in Htruthy.
  destruct (transports !! s) as [t'|] eqn:Hlookup.
  - intros [= <-]. eauto.
  - by case_bool_decide.
Qed.

Lemma is_string_eq (m : Js.value) (lit : string) :
  Js.is_string m lit = true ↔ m = Js.Prim (Js.Str lit).
Proof.
  destruct m as [[| |b|n|s]|items|props]; simpl; try (split; [done|intros [=]]).
  destruct (String.eqb_spec s lit); split; congruence.
Qed.

Section Sessions.

Variable sdk : Sdk.

Lemma post_deliver_created (t : Transport) (made : option Transport)
    (transports : gmap string Transport) (req : Request) :
  created (post_deliver sdk t made transports req) = made.
Proof. reflexivity. Qed.

(** The POST handler constructs a transport exactly when the session id
    is falsy and the body passes [isInitializeRequest]. *)
Lemma post_mcp_created (transports : gmap string Transport) (req : Request) :
  created (post_mcp sdk transports req)
  = if negb (Js.truthy_prim (Js.of_option (req_headers req !! "mcp-session-id")))
       && isInitializeRequest (req_body req)
    then Some {| sessionId := None; enableJsonResponse := true;
                 eventStore := InMemoryEventStore.new |}
    else None.
Proof.
  unfold post_mcp. cbv zeta.
  destruct (session_slot transports (req_headers req !! "mcp-session-id"))
    as [t|name|] eqn:Hslot.
  - apply session_slot_own in Hslot as (s & -> & Hs & _).
    apply truthy_Str in Hs. simpl in *. by rewrite Hs.
  - unfold session_slot in Hslot.
    destruct (req_headers req !! "mcp-session-id") as [s|]; [|done].
    simpl in *. by destruct (negb (String.eqb s "")).
  - by destruct (negb _ && _).
Qed.

Lemma post_mcp_refused (transports : gmap string Transport) (req : Request) :
  session_slot transports (req_headers req !! "mcp-session-id") = Js.Missing →
  negb (Js.truthy_prim (Js.of_option (req_headers req !! "mcp-session-id")))
  && isInitializeRequest (req_body req) = false →
  post_mcp sdk transports req
  = {| transports_after := transports; created := None;
       response := Some bad_request |}.
Proof. intros Hslot Hcond. unfold post_mcp. cbv zeta. by rewrite Hslot, Hcond. Qed.

Lemma get_mcp_refused (transports : gmap string Transport) (req : Request) :
  session_slot transports (req_headers req !! "mcp-session-id") = Js.Missing →
  get_mcp sdk transports req
  = {| transports_after := transports; created := None;
       response := Some invalid_session |}.
Proof.
  intros Hslot. unfold get_mcp. cbv zeta. rewrite Hslot. simpl.
  by rewrite orb_true_r.
Qed.

Lemma delete_mcp_refused (transports : gmap string Transport) (req : Request) :
  session_slot transports (req_headers req !! "mcp-session-id") = Js.Missing →
  delete_mcp sdk transports req
  = {| transports_after := transports; created := None;
       response := Some invalid_session |}.
Proof.
  intros Hslot. unfold delete_mcp. cbv zeta. rewrite Hslot. simpl.
  by rewrite orb_true_r.
Qed.

End Sessions.



(** C1, as worded, fails twice.  A POST whose session id header is
    present but empty, with an initialize body, gets a new transport; and
    a POST whose session id is the name of a member every object inherits
    (here [constructor]) is not refused with 400 although no such session
    is registered: the lookup yields the inherited member, calling
    [handleRequest] on it throws, and the handler answers 500. *)
Lemma post_empty_or_inherited_session_id :
  ¬ post_as_specified sdk_accepting ∅
      (request POST [("mcp-session-id", "")] initialize_body)
  ∧ ¬ post_as_specified sdk_accepting ∅
        (request POST [("mcp-session-id", "constructor")] tools_list_body).
Proof.
  split.
  - intros [Hcreated _].
    destruct (proj1 Hcreated) as [Habsent _].
    + vm_compute. eauto.
    + vm_compute in Habsent. discriminate.
  - intros [_ Hrefused].
    destruct Hrefused as [(r & Hresponse & Hstatus & _) _].
    + left. exists "constructor". split; vm_compute; reflexivity.
    + vm_compute in Hresponse. injection Hresponse as <-.
      vm_compute in Hstatus. discriminate.
Qed.

(** C1, amended: the POST handler constructs a new transport if and only
    if the session id header is absent or empty and the body is an
    initialize call.  A POST whose session id is non-empty, not registered
    and not the name of a member inherited from [Object.prototype], or
    whose session id is absent or empty while the body is not an
    initialize call, is answered with HTTP 400 and JSON-RPC code -32000;
    no transport is constructed and the registry is unchanged. *)
Theorem post_mcp_creates_or_refuses (sdk : Sdk)
    (transports : gmap string Transport) (req : Request) :
  let sid := req_headers req !! "mcp-session-id" in
  let h := post_mcp sdk transports req in
  (is_Some (created h)
   ↔ (sid = None ∨ sid = Some "") ∧ isInitializeRequest (req_body req) = true)
  ∧ (((∃ s, sid = Some s ∧ s ≠ "" ∧ transports !! s = None
            ∧ s ∉ Js.object_prototype_keys)
      ∨ ((sid = None ∨ sid = Some "")
         ∧ isInitializeRequest (req_body req) = false)) →
     response h = Some bad_request ∧ answers h 400 (-32000)
     ∧ created h = None ∧ transports_after h = transports).
Proof.
  cbv zeta. split.
  - rewrite post_mcp_created.
    destruct (Js.truthy_prim (Js.of_option (req_headers req !! "mcp-session-id")))
      eqn:Hsid; simpl.
    + split; [intros [? [=]]|].
      intros [Hfalsy _]. apply truthy_of_option_false in Hfalsy. congruence.
    + apply truthy_of_option_false in Hsid.
      destruct (isInitializeRequest (req_body req)); split.
      * done.
      * eauto.
      * intros [? [=]].
      * intros [_ [=]].
  - intros Hcase.
    assert (Hrefused : post_mcp sdk transports req
                       = {| transports_after := transports; created := None;
                            response := Some bad_request |}).
    { destruct Hcase as [(s & Hsid & Hs & Hnone & Hown)|[Hfalsy Hbody]].
      - apply post_mcp_refused.
        + rewrite Hsid. by apply session_slot_unknown.
        + rewrite Hsid. apply truthy_Str in Hs. simpl in *. by rewrite Hs.
      - apply post_mcp_refused.
        + by apply session_slot_falsy.
        + rewrite Hbody. apply andb_false_r. }
    rewrite Hrefused. simpl. repeat split; try done.
    exists bad_request. by repeat split.
Qed.

Lemma post_mcp_creates_or_refuses_witness :
  response (post_mcp sdk_accepting ∅
              (request POST [("mcp-session-id", "no-such-session")]
                 tools_list_body))
  = Some bad_request
  ∧ is_Some (created (post_mcp sdk_accepting ∅
                        (request POST [] initialize_body))).
Proof.
  split.
  - apply (proj2 (post_mcp_creates_or_refuses sdk_accepting ∅
                    (request POST [("mcp-session-id", "no-such-session")]
                       tools_list_body))).
    left. exists "no-such-session".
    split; [reflexivity|]. split; [discriminate|]. split; [reflexivity|].
    apply (bool_decide_unpack _). vm_compute. exact I.
  - apply (proj1 (post_mcp_creates_or_refuses sdk_accepting ∅
                    (request POST [] initialize_body))).
    split; [left|]; reflexivity.
Defined.

(** C5, as worded, fails for GET and DELETE: without a session id they
    answer 400 with a plain-text body, which carries no JSON-RPC error
    code. *)
Lemma get_without_session_has_no_jsonrpc_code :
  ¬ session_errors_as_specified sdk_accepting ∅
      (request GET [] (Js.Prim Js.Undefined)).
Proof.
  intros Hclaim. destruct Hclaim as (r & Hresponse & _ & Hcode).
  - right. split; [reflexivity|discriminate].
  - vm_compute in Hresponse. injection Hresponse as <-.
    vm_compute in Hcode. discriminate.
Qed.

(** C5, amended: a request to the MCP endpoint whose session id is absent
    or empty (on POST: while the body is not an initialize call), or is
    neither registered nor the name of a member inherited from
    [Object.prototype], is answered with HTTP 400 and leaves the registry
    unchanged.  On POST the body is the JSON-RPC error with code -32000;
    on GET and DELETE it is the plain text [Invalid or missing session ID],
    which carries no JSON-RPC error code. *)
Theorem mcp_refuses_unknown_session (sdk : Sdk)
    (transports : gmap string Transport) (req : Request) :
  let sid := req_headers req !! "mcp-session-id" in
  let h := mcp sdk transports req in
  (sid = None ∨ sid = Some "")
  ∨ (∃ s, sid = Some s ∧ transports !! s = None ∧ s ∉ Js.object_prototype_keys) →
  (req_verb req = POST → (sid = None ∨ sid = Some "") →
   isInitializeRequest (req_body req) = false) →
  transports_after h = transports ∧ created h = None
  ∧ match req_verb req with
    | POST => response h = Some bad_request ∧ answers h 400 (-32000)
    | GET | DELETE =>
        response h = Some invalid_session
        ∧ status invalid_session = 400
        ∧ payload invalid_session = Text "Invalid or missing session ID"
        ∧ error_code invalid_session = None
    end.
Proof.
  cbv zeta. intros Hsession Hbody.
  assert (Hslot : session_slot transports (req_headers req !! "mcp-session-id")
                  = Js.Missing).
  { destruct Hsession as [Hfalsy|(s & -> & Hnone & Hown)].
    - by apply session_slot_falsy.
    - by apply session_slot_unknown. }
  unfold mcp. destruct (req_verb req) eqn:Hverb.
  - rewrite get_mcp_refused by done. simpl. by repeat split.
  - assert (Hcond :
      negb (Js.truthy_prim (Js.of_option (req_headers req !! "mcp-session-id")))
      && isInitializeRequest (req_body req) = false).
    { destruct (Js.truthy_prim (Js.of_option (req_headers req !! "mcp-session-id")))
        eqn:Hsid; [done|].
      apply truthy_of_option_false in Hsid. simpl. by apply Hbody. }
    rewrite post_mcp_refused by done. simpl. repeat split.
    exists bad_request. by repeat split.
  - rewrite delete_mcp_refused by done. simpl. by repeat split.
Qed.

Lemma mcp_refuses_unknown_session_witness :
  response (mcp sdk_accepting ∅
              (request DELETE [("mcp-session-id", "no-such-session")]
                 (Js.Prim Js.Undefined)))
  = Some invalid_session
  ∧ answers (mcp sdk_accepting ∅ (request POST [] tools_list_body)) 400 (-32000).
Proof.
  split.
  - apply (mcp_refuses_unknown_session sdk_accepting ∅
             (request DELETE [("mcp-session-id", "no-such-session")]
                (Js.Prim Js.Undefined))).
    + right. exists "no-such-session".
      split; [reflexivity|]. split; [reflexivity|].
      apply (bool_decide_unpack _). vm_compute. exact I.
    + discriminate.
  - apply (mcp_refuses_unknown_session sdk_accepting ∅
             (request POST [] tools_list_body)).
    + left. left. reflexivity.
    + intros _ _. reflexivity.
Defined.


(** C10, as worded, fails: a body with [method] equal to [initialize]
    does not create a session regardless of the rest of the envelope.
    The handler constructs a transport and hands it the request, but the
    entry in the registry is made by the [onsessioninitialized] callback,
    which the SDK invokes only for an envelope it accepts.  Here the body
    is an initialize call in a JSON-RPC 1.0 envelope and the SDK checks
    the version: the registry is as empty afterwards as it was before. *)
Lemma initialize_with_rejected_envelope_creates_no_session :
  ¬ initialize_creates_session_as_specified sdk_checking_envelope ∅
      (request POST [] initialize_body_v1).
Proof.
  intros Hcreates.
  destruct Hcreates as (sid & _ & Hregistered).
  - reflexivity.
  - eexists. split; reflexivity.
  - vm_compute in Hregistered. by destruct Hregistered.
Qed.

(** C10, amended: [isInitializeRequest] looks at nothing but the
    truthiness of the body and its [method]: it holds exactly when the
    body is truthy and its [method] is the string [initialize], so two
    objects with the same [method] are classified alike whatever their
    [jsonrpc], [id] or [params]; and a POST without session id header
    whose body is an object with [method] equal to [initialize] makes the
    handler construct a new transport, whatever else the body holds, and
    hand it the request: the SDK's response is the handler's.  A session
    results only if the SDK then initialises the transport: it is
    registered under the id the SDK reports (and stays registered unless
    the SDK closes it in the same run); if the SDK reports no
    initialisation the registry is left as it was. *)
Theorem isInitializeRequest_reads_only_method :
  (∀ body, isInitializeRequest body = true
           ↔ Js.truthy body = true
             ∧ Js.member body "method" = Some (Js.Prim (Js.Str "initialize")))
  ∧ (∀ props props',
       Js.own props "method" = Js.own props' "method" →
       isInitializeRequest (Js.Obj props) = isInitializeRequest (Js.Obj props'))
  ∧ (∀ sdk transports req props,
       req_headers req !! "mcp-session-id" = None →
       req_body req = Js.Obj props →
       Js.own props "method" = Js.Prim (Js.Str "initialize") →
       let transport := {| sessionId := None; enableJsonResponse := true;
                           eventStore := InMemoryEventStore.new |} in
       let h := post_mcp sdk transports req in
       created h = Some transport
       ∧ (∀ r, ending (sdk transport req) = Responded r → response h = Some r)
       ∧ (∀ s,
            initialized (sdk transport req) = Some s →
            closed (sdk transport req) = false →
            transports_after h !! s
            = Some {| sessionId := Some s; enableJsonResponse := true;
                      eventStore := InMemoryEventStore.new |})
       ∧ (initialized (sdk transport req) = None →
          transports_after h = transports)).
Proof.
  split; [|split].
  - intros body. unfold isInitializeRequest.
    destruct (Js.truthy body); simpl; [|split; [done|intros [[=] _]]].
    destruct (Js.member body "method") as [m|]; [|split; [done|intros [_ [=]]]].
    rewrite is_string_eq. split.
    + intros ->. done.
    + intros [_ [= ->]]. done.
  - intros props props' Hsame. unfold isInitializeRequest. simpl.
    by rewrite Hsame.
  - intros sdk transports req props Hsid Hbody Hmethod transport h.
    assert (Hinit : isInitializeRequest (req_body req) = true).
    { rewrite Hbody. unfold isInitializeRequest. simpl. by rewrite Hmethod. }
    assert (Hhandled : h = post_deliver sdk transport (Some transport) transports req).
    { subst h. unfold post_mcp. cbv zeta. by rewrite Hsid, Hinit. }
    rewrite Hhandled. unfold post_deliver, callbacks, onsessioninitialized.
    cbv zeta. fold transport. simpl.
    split; [done|split; [|split]].
    + by intros r ->.
    + intros s -> ->. simpl. apply lookup_insert_eq.
    + intros ->. unfold onclose. simpl. by destruct (closed _).
Qed.

Lemma isInitializeRequest_reads_only_method_witness :
  created (post_mcp sdk_checking_envelope ∅ (request POST [] initialize_body_v1))
  = Some {| sessionId := None; enableJsonResponse := true;
            eventStore := InMemoryEventStore.new |}
  ∧ transports_after
      (post_mcp sdk_checking_envelope ∅ (request POST [] initialize_body_v1))
    = ∅
  ∧ transports_after (post_mcp sdk_accepting ∅ (request POST [] initialize_body))
    !! "sess-1"
    = Some {| sessionId := Some "sess-1"; enableJsonResponse := true;
              eventStore := InMemoryEventStore.new |}.
Proof.
  destruct (proj2 (proj2 isInitializeRequest_reads_only_method)
              sdk_checking_envelope ∅ (request POST [] initialize_body_v1)
              [ ("jsonrpc", Js.Prim (Js.Str "1.0"));
                ("method", Js.Prim (Js.Str "initialize")) ]
              eq_refl eq_refl eq_refl)
    as (Hcreated & _ & _ & Hunchanged).
  destruct (proj2 (proj2 isInitializeRequest_reads_only_method)
              sdk_accepting ∅ (request POST [] initialize_body)
              [ ("jsonrpc", Js.Prim (Js.Str "2.0")); ("id", Js.Prim (Js.Num 0));
                ("method", Js.Prim (Js.Str "initialize"));
                ("params", Js.Obj []) ]
              eq_refl eq_refl eq_refl)
    as (_ & _ & Hregistered & _).
  split; [exact Hcreated|split].
  - apply Hunchanged. reflexivity.
  - apply (Hregistered "sess-1"); reflexivity.
Defined.


(** ** Scenarios *)

(** An initialize POST without session id registers the new transport
    under the id the SDK generated. *)
Example scenario_initialize_registers :
  map_to_list
    (transports_after (mcp sdk_accepting ∅ (request POST [] initialize_body)))
  = [ ("sess-1",
       {| sessionId := Some "sess-1"; enableJsonResponse := true;
          eventStore := InMemoryEventStore.new |}) ].
Proof. vm_compute. reflexivity. Qed.

(** A later POST carrying that id is handed to its transport; one
    carrying another id is refused and changes nothing. *)
Example scenario_later_requests :
  let registry :=
    transports_after (mcp sdk_accepting ∅ (request POST [] initialize_body)) in
  (response (mcp sdk_accepting registry
               (request POST [("mcp-session-id", "sess-1")] tools_list_body))
   = Some {| status := 200; payload := Json (Js.Obj []) |})
  ∧ mcp sdk_accepting registry
      (request POST [("mcp-session-id", "sess-2")] tools_list_body)
    = {| transports_after := registry; created := None;
         response := Some bad_request |}.
Proof. split; vm_compute; reflexivity. Qed.

(** A session id naming an inherited member reaches [handleRequest] on
    something that is no transport: the handlers of POST and DELETE
    answer 500, the handler of GET writes nothing itself. *)
Example scenario_inherited_member :
  response (mcp sdk_accepting ∅
              (request POST [("mcp-session-id", "toString")] tools_list_body))
  = Some internal_error
  ∧ response (mcp sdk_accepting ∅
                (request GET [("mcp-session-id", "toString")]
                   (Js.Prim Js.Undefined)))
    = None
  ∧ (status <$> response (mcp sdk_accepting ∅
                            (request DELETE [("mcp-session-id", "toString")]
                               (Js.Prim Js.Undefined))))
    = Some 500.
Proof. repeat split; vm_compute; reflexivity. Qed.

(** The outbound call of [get_pod_by_number]: URL, method and headers. *)
Example scenario_outbound_call :
  calls (callTool network_timing_out
           (config {[ "API_KEY_PODS" := "k1" ]}) "get_pod_by_number"
           (Some [ ("collection", Js.Prim (Js.Str "testpods"));
                   ("number", Js.Prim (Js.Num 3)) ]))
  = [ ("http://apigateway.cxocoe.us/api/v2/pods/testpods/3",
       {| init_method := Some "GET"; init_body := None;
          init_headers := Some [ ("Content-Type", "application/json");
                                 ("x-api-key", "k1") ];
          init_signal := None |}) ].
Proof. vm_compute. reflexivity. Qed.

(** A backend answering with an error status: the message of the body
    becomes the message of the tool error. *)
Example scenario_backend_error_status :
  result (callTool
            (fun _ _ =>
               Return {| resp_ok := false; resp_status := 404;
                         resp_json :=
                           Return (Js.Obj [ ("message",
                                             Js.Prim (Js.Str "Pod not found")) ]) |})
            (config ∅) "get_pod_keyword" None)
  = Return (tool_error "Pod not found")
  ∧ result (callTool
              (fun _ _ =>
                 Return {| resp_ok := false; resp_status := 404;
                           resp_json := Return (Js.Obj []) |})
              (config ∅) "get_pod_keyword" None)
    = Return (tool_error "API request failed with status 404").
Proof. split; vm_compute; reflexivity. Qed.

(** * Further properties of the code *)

(** ** Event store: replay and clearing *)

Lemma first_occurrence {A} (p : A → bool) (l : list A) :
  (∃ x, x ∈ l ∧ p x = true) →
  ∃ pre e post, l = pre ++ e :: post ∧ p e = true
                ∧ ∀ x, x ∈ pre → p x = false.
Proof.
  induction l as [|y l IH]; intros (x & Hin & Hp).
  - inversion Hin.
  - destruct (p y) eqn:Hy.
    + exists [], y, l. repeat split; [done|]. intros z Hz. inversion Hz.
    + destruct IH as (pre & e & post & -> & He & Hpre).
      { apply elem_of_cons in Hin as [->|Hin]; [congruence|eauto]. }
      exists (y :: pre), e, post. repeat split; [done|].
      intros z Hz. apply elem_of_cons in Hz as [->|Hz]; [done|by apply Hpre].
Qed.

Lemma strict_eq_true (a b : Js.prim) : Js.strict_eq a b = true ↔ a = b.
Proof. unfold Js.strict_eq. apply bool_decide_eq_true. Qed.

(** Replaying after a truthy id found in the log: the events behind its
    first occurrence. *)
Lemma getEventsAfter_found (store : InMemoryEventStore.t) (sid : string)
    (X : Js.prim) (pre : list Event) (e : Event) (post : list Event) :
  Js.truthy_prim X = true →
  InMemoryEventStore.log store sid = pre ++ e :: post →
  id e = X → (∀ e', e' ∈ pre → id e' ≠ X) →
  InMemoryEventStore.getEventsAfter store sid X = post.
Proof.
  intros Htruthy Hlog Hid Hpre.
  unfold InMemoryEventStore.getEventsAfter, InMemoryEventStore.log in *.
  cbv zeta. rewrite Htruthy, Hlog. simpl.
  unfold InMemoryEventStore.findIndex.
  rewrite findIndex_from_first.
  - destruct (Z.eqb_spec (0 + Z.of_nat (length pre)) (-1)) as [Hneg|_]; [lia|].
    unfold InMemoryEventStore.slice.
    replace (Z.to_nat (0 + Z.of_nat (length pre) + 1))
      with (length (pre ++ [e])) by (rewrite length_app; simpl; lia).
    rewrite (cons_middle e pre post), app_assoc.
    by rewrite drop_app_length.
  - intros x Hx. apply strict_eq_false. by apply Hpre.
  - subst X. apply strict_eq_refl.
Qed.

Lemma getEventsAfter_empty_log (store : InMemoryEventStore.t) (sid : string)
    (X : Js.prim) :
  InMemoryEventStore.log store sid = [] →
  InMemoryEventStore.getEventsAfter store sid X = [].
Proof.
  unfold InMemoryEventStore.getEventsAfter, InMemoryEventStore.log.
  cbv zeta. intros ->. by destruct (negb (Js.truthy_prim X)).
Qed.

(** X1: whatever id is handed in, [getEventsAfter] returns a suffix of the
    stored log: events are never invented, dropped from the middle or
    reordered. *)
Theorem getEventsAfter_is_suffix (store : InMemoryEventStore.t) (sid : string)
    (X : Js.prim) :
  ∃ skipped,
    InMemoryEventStore.log store sid
    = skipped ++ InMemoryEventStore.getEventsAfter store sid X.
Proof.
  unfold InMemoryEventStore.getEventsAfter, InMemoryEventStore.log.
  cbv zeta.
  destruct (negb (Js.truthy_prim X)); [by exists []|].
  destruct (Z.eqb _ (-1)); [by exists []|].
  unfold InMemoryEventStore.slice.
  eexists. symmetry. apply take_drop.
Qed.

(** X2: resuming picks up what was appended meanwhile.  If [X] is truthy
    and some stored event has id [X], then after appending further events
    the replay after [X] is the earlier replay followed by the appended
    events. *)
Theorem replay_extends_with_appended (store : InMemoryEventStore.t)
    (sid : string) (X : Js.prim) (es : list Event) :
  Js.truthy_prim X = true →
  (∃ e, e ∈ InMemoryEventStore.log store sid ∧ id e = X) →
  InMemoryEventStore.getEventsAfter
    (InMemoryEventStore.addEvents store sid es) sid X
  = InMemoryEventStore.getEventsAfter store sid X ++ es.
Proof.
  intros Htruthy (e0 & Hin & Hid0).
  destruct (first_occurrence (fun e => Js.strict_eq (id e) X)
              (InMemoryEventStore.log store sid))
    as (pre & e & post & Hlog & He & Hpre).
  { exists e0. split; [done|]. by apply strict_eq_true. }
  apply strict_eq_true in He.
  assert (Hpre' : ∀ e', e' ∈ pre → id e' ≠ X).
  { intros e' He' Heq. specialize (Hpre e' He').
    apply strict_eq_true in Heq. congruence. }
  rewrite (getEventsAfter_found store sid X pre e post) by done.
  apply (getEventsAfter_found _ sid X pre e (post ++ es)); try done.
  rewrite addEvents_log, Hlog. by rewrite <- app_assoc.
Qed.

Lemma replay_extends_with_appended_witness :
  InMemoryEventStore.getEventsAfter
    (InMemoryEventStore.addEvents
       (store_of "s" [event (Js.Str "a"); event (Js.Str "b")]) "s"
       [event (Js.Str "c")]) "s" (Js.Str "a")
  = InMemoryEventStore.getEventsAfter
      (store_of "s" [event (Js.Str "a"); event (Js.Str "b")]) "s" (Js.Str "a")
    ++ [event (Js.Str "c")].
Proof.
  apply (replay_extends_with_appended
           (store_of "s" [event (Js.Str "a"); event (Js.Str "b")]) "s"
           (Js.Str "a") [event (Js.Str "c")]).
  - reflexivity.
  - exists (event (Js.Str "a")). split; [|reflexivity].
    rewrite store_of_log. left.
Defined.

(** X3: a client that has seen the newest event has nothing to replay.
    After [addEvent] stores an event whose id is truthy and carried by no
    earlier event of the session, replaying after that id yields the
    empty list. *)
Theorem replay_after_newest_is_empty (store : InMemoryEventStore.t)
    (sid : string) (e : Event) :
  Js.truthy_prim (id e) = true →
  (∀ e', e' ∈ InMemoryEventStore.log store sid → id e' ≠ id e) →
  InMemoryEventStore.getEventsAfter
    (InMemoryEventStore.addEvent store sid e) sid (id e) = [].
Proof.
  intros Htruthy Hfresh.
  apply (getEventsAfter_found _ sid (id e)
           (InMemoryEventStore.log store sid) e []); try done.
  apply addEvent_log.
Qed.

Lemma replay_after_newest_is_empty_witness :
  InMemoryEventStore.getEventsAfter
    (InMemoryEventStore.addEvent (store_of "s" [event (Js.Num 1)]) "s"
       (event (Js.Num 2))) "s" (Js.Num 2) = [].
Proof.
  apply (replay_after_newest_is_empty (store_of "s" [event (Js.Num 1)]) "s"
           (event (Js.Num 2))).
  - reflexivity.
  - intros e' He'. rewrite store_of_log in He'.
    apply list_elem_of_singleton in He'. subst e'. simpl. discriminate.
Defined.

(** X4: [clearSession] forgets exactly one session.  Afterwards that
    session's log is empty and every replay of it is empty, an event
    added next starts a fresh log, and the logs and replays of all other
    sessions are as before. *)
Theorem clearSession_forgets_one_session (store : InMemoryEventStore.t)
    (sid : string) :
  let cleared := InMemoryEventStore.clearSession store sid in
  InMemoryEventStore.log cleared sid = []
  ∧ (∀ X, InMemoryEventStore.getEventsAfter cleared sid X = [])
  ∧ (∀ e, InMemoryEventStore.log (InMemoryEventStore.addEvent cleared sid e) sid
          = [e])
  ∧ (∀ other X, other ≠ sid →
       InMemoryEventStore.log cleared other = InMemoryEventStore.log store other
       ∧ InMemoryEventStore.getEventsAfter cleared other X
         = InMemoryEventStore.getEventsAfter store other X).
Proof.
  cbv zeta.
  assert (Hlog : InMemoryEventStore.log
                   (InMemoryEventStore.clearSession store sid) sid = []).
  { unfold InMemoryEventStore.log, InMemoryEventStore.clearSession. simpl.
    by rewrite lookup_delete_eq. }
  split; [exact Hlog|]. split; [|split].
  - intros X. by apply getEventsAfter_empty_log.
  - intros e. by rewrite addEvent_log, Hlog.
  - intros other X Hne.
    unfold InMemoryEventStore.log, InMemoryEventStore.getEventsAfter,
      InMemoryEventStore.clearSession. simpl.
    by rewrite lookup_delete_ne.
Qed.

Lemma clearSession_forgets_one_session_witness :
  InMemoryEventStore.log
    (InMemoryEventStore.clearSession
       (InMemoryEventStore.addEvents (store_of "a" [event (Js.Num 1)]) "b"
          [event (Js.Num 2)]) "b") "a"
  = InMemoryEventStore.log
      (InMemoryEventStore.addEvents (store_of "a" [event (Js.Num 1)]) "b"
         [event (Js.Num 2)]) "a".
Proof.
  apply (proj2 (proj2 (proj2
           (clearSession_forgets_one_session
              (InMemoryEventStore.addEvents (store_of "a" [event (Js.Num 1)]) "b"
                 [event (Js.Num 2)]) "b"))) "a" Js.Undefined).
  discriminate.
Defined.

(** ** Configuration and credentials *)

Lemma env_or_nonempty (env : gmap string string) (name fallback : string) :
  fallback ≠ "" → env_or env name fallback ≠ "".
Proof.
  intros Hfallback. unfold env_or.
  destruct (env !! name) as [s|]; [|done].
  destruct (Js.truthy_prim (Js.Str s)) eqn:Hs; [|done].
  by apply truthy_Str.
Qed.

Lemma env_or_set (env : gmap string string) (name fallback s : string) :
  env !! name = Some s → s ≠ "" → env_or env name fallback = s.
Proof.
  intros Hset Hs. unfold env_or. rewrite Hset.
  apply truthy_Str in Hs. by rewrite Hs.
Qed.

Lemma env_or_unset (env : gmap string string) (name fallback : string) :
  env !! name = None ∨ env !! name = Some "" → env_or env name fallback = fallback.
Proof. unfold env_or. by intros [-> | ->]. Qed.

(** X5: the configuration never holds an empty base URL, auth mode or
    server path.  A variable that is set and non-empty is taken as it is;
    one that is unset, or set to the empty string, gives the built-in
    default. *)
Theorem config_falls_back_on_empty (env : gmap string string) :
  (apiBaseUrl (config env) ≠ "" ∧ authMode (config env) ≠ ""
   ∧ serverPath (config env) ≠ "")
  ∧ (∀ s, s ≠ "" →
       (env !! "API_BASE_URL" = Some s → apiBaseUrl (config env) = s)
       ∧ (env !! "AUTH_MODE" = Some s → authMode (config env) = s)
       ∧ (env !! "SERVER_PATH" = Some s → serverPath (config env) = s))
  ∧ ((env !! "API_BASE_URL" = None ∨ env !! "API_BASE_URL" = Some "" →
      apiBaseUrl (config env) = "http://apigateway.cxocoe.us")
     ∧ (env !! "AUTH_MODE" = None ∨ env !! "AUTH_MODE" = Some "" →
        authMode (config env) = "apikey")
     ∧ (env !! "SERVER_PATH" = None ∨ env !! "SERVER_PATH" = Some "" →
        serverPath (config env) = "/CiscoMCPPods")).
Proof.
  split; [|split].
  - repeat split; apply env_or_nonempty; discriminate.
  - intros s Hs. repeat split; intros Hset; by apply env_or_set.
  - repeat split; apply env_or_unset.
Qed.

Lemma config_falls_back_on_empty_witness :
  serverPath (config {[ "SERVER_PATH" := "" ]}) = "/CiscoMCPPods"
  ∧ serverPath (config {[ "SERVER_PATH" := "/x" ]}) = "/x".
Proof.
  split.
  - apply (proj2 (proj2 (proj2 (config_falls_back_on_empty
                                  {[ "SERVER_PATH" := "" ]})))).
    right. reflexivity.
  - apply (proj2 (proj2 (proj1 (proj2 (config_falls_back_on_empty
                                         {[ "SERVER_PATH" := "/x" ]}))
                           "/x" ltac:(discriminate))) ).
    reflexivity.
Defined.

Lemma append_nonempty_r (s t : string) : t ≠ "" → s +:+ t ≠ "".
Proof. destruct s; simpl; [done|discriminate]. Qed.

Lemma append_inj_l (s a b : string) : s +:+ a = s +:+ b → a = b.
Proof. induction s as [|c s IH]; simpl; [done|]. intros [= H]. by apply IH. Qed.

Lemma mcp_path_protected (cfg : Config) (req : Request) :
  req_path req = serverPath cfg +:+ "/mcp" → protected_path cfg req.
Proof.
  unfold protected_path. intros ->. split.
  - intros Heq. apply append_inj_l in Heq. discriminate.
  - destruct (serverPath cfg) as [|c [|c' s]]; simpl; discriminate.
Qed.

Lemma gate_open_without_key (cfg : Config) (req : Request) :
  Js.truthy_prim (Js.of_option (mcpApiKey cfg)) = false →
  authenticateApiKey cfg req = Next.
Proof.
  intros Hoff. unfold authenticateApiKey. rewrite Hoff. simpl.
  by destruct (_ || _).
Qed.

(** X6: the startup warning and the gate agree.  [src/config.js] prints
    the warning that MCP authentication is disabled exactly when the auth
    middleware lets every request through. *)
Theorem auth_disabled_warning_iff_gate_open (cfg : Config) :
  "Warning: MCP_API_KEY is not configured in .env file - MCP server authentication will be disabled"
    ∈ warnings cfg
  ↔ ∀ req, authenticateApiKey cfg req = Next.
Proof.
  unfold warnings. split.
  - intros Hin req. apply gate_open_without_key.
    destruct (Js.truthy_prim (Js.of_option (mcpApiKey cfg))); [|done].
    exfalso. simpl in Hin. rewrite app_nil_r in Hin.
    apply elem_of_app in Hin as [Hin|Hin];
      [destruct (_ && _)|destruct (_ && _)];
      try (apply list_elem_of_singleton in Hin; discriminate);
      inversion Hin.
  - intros Hopen.
    destruct (Js.truthy_prim (Js.of_option (mcpApiKey cfg))) eqn:Hkey.
    + exfalso.
      specialize (Hopen {| req_verb := POST; req_path := "";
                           req_headers := ∅; req_body := Js.Prim Js.Undefined |}).
      assert (Hhealth : String.eqb "" (serverPath cfg +:+ "/health") = false).
      { apply String.eqb_neq. intros Heq. symmetry in Heq.
        by apply append_nonempty_r in Heq. }
      unfold authenticateApiKey in Hopen.
      cbn [req_path req_headers] in Hopen.
      rewrite Hhealth, Hkey, lookup_empty in Hopen. simpl in Hopen.
      discriminate.
    + simpl. rewrite !elem_of_app. right. right. left.
Qed.

Lemma spread_nil_r (a : list (string * string)) : PodsClient.spread a [] = a.
Proof.
  unfold PodsClient.spread. simpl. rewrite app_nil_r.
  induction a as [|[k v] a IH]; simpl; [done|]. by rewrite IH.
Qed.

Lemma getAuthHeaders_cases (cfg : Config) :
  let headers := PodsClient.getAuthHeaders (PodsClient.new cfg) in
  (authMode cfg = "apikey"
   ∧ ∃ k, apiKeyPods cfg = Some k ∧ k ≠ ""
          ∧ headers = [ ("Content-Type", "application/json"); ("x-api-key", k) ])
  ∨ (authMode cfg = "jwt"
     ∧ ∃ token, jwtToken cfg = Some token ∧ token ≠ ""
                ∧ headers = [ ("Content-Type", "application/json");
                              ("Authorization", "Bearer " +:+ token) ])
  ∨ (¬ (authMode cfg = "apikey" ∧ ∃ k, apiKeyPods cfg = Some k ∧ k ≠ "")
     ∧ ¬ (authMode cfg = "jwt" ∧ ∃ token, jwtToken cfg = Some token ∧ token ≠ "")
     ∧ headers = [ ("Content-Type", "application/json") ]).
Proof.
  cbv zeta. unfold PodsClient.getAuthHeaders, PodsClient.new.
  cbn [PodsClient.clientAuthMode PodsClient.apiKey PodsClient.clientJwtToken].
  destruct (String.eqb_spec (authMode cfg) "apikey") as [Hmode|Hmode];
    destruct (Js.truthy_prim (Js.of_option (apiKeyPods cfg))) eqn:Hkey;
    cbn [andb].
  - apply truthy_of_option_true in Hkey as (k & Hkey & Hk).
    left. split; [done|]. exists k. rewrite Hkey. done.
  - right. apply truthy_of_option_false in Hkey.
    assert (Hjwt : String.eqb (authMode cfg) "jwt" = false).
    { apply String.eqb_neq. congruence. }
    rewrite Hjwt. cbn [andb]. right. split; [|split; [|done]].
    + intros (_ & k & Hk & Hne). destruct Hkey; congruence.
    + intros (Hjwt' & _). congruence.
  - apply truthy_of_option_true in Hkey as (k & Hkey & Hk).
    destruct (String.eqb_spec (authMode cfg) "jwt") as [Hjwt|Hjwt];
      destruct (Js.truthy_prim (Js.of_option (jwtToken cfg))) eqn:Htoken;
      cbn [andb].
    + apply truthy_of_option_true in Htoken as (token & Htoken & Ht).
      right. left. split; [done|]. exists token. rewrite Htoken. done.
    + apply truthy_of_option_false in Htoken.
      right. right. split; [|split; [|done]].
      * intros (Hm & _). done.
      * intros (_ & token & Ht & Hne). destruct Htoken; congruence.
    + right. right. split; [|split; [|done]]; intros (Hm & _); done.
    + right. right. split; [|split; [|done]]; intros (Hm & _); done.
  - apply truthy_of_option_false in Hkey.
    destruct (String.eqb_spec (authMode cfg) "jwt") as [Hjwt|Hjwt];
      destruct (Js.truthy_prim (Js.of_option (jwtToken cfg))) eqn:Htoken;
      cbn [andb].
    + apply truthy_of_option_true in Htoken as (token & Htoken & Ht).
      right. left. split; [done|]. exists token. rewrite Htoken. done.
    + apply truthy_of_option_false in Htoken.
      right. right. split; [|split; [|done]].
      * intros (Hm & _). done.
      * intros (_ & token & Ht & Hne). destruct Htoken; congruence.
    + right. right. split; [|split; [|done]]; intros (Hm & _); done.
    + right. right. split; [|split; [|done]]; intros (Hm & _); done.
Qed.

(** X7: which credential the client sends.  The headers of every backend
    request start with [Content-Type: application/json]; they carry
    [x-api-key] exactly when the auth mode is [apikey] and a non-empty key
    is configured, with that key as value; they carry [Authorization]
    exactly when the auth mode is [jwt] and a non-empty token is
    configured, with value [Bearer <token>]; they never carry both. *)
Theorem getAuthHeaders_credentials (cfg : Config) :
  let headers := PodsClient.getAuthHeaders (PodsClient.new cfg) in
  PodsClient.header headers "Content-Type" = Some "application/json"
  ∧ (∀ k, PodsClient.header headers "x-api-key" = Some k
          ↔ authMode cfg = "apikey" ∧ apiKeyPods cfg = Some k ∧ k ≠ "")
  ∧ (∀ v, PodsClient.header headers "Authorization" = Some v
          ↔ ∃ token, authMode cfg = "jwt" ∧ jwtToken cfg = Some token
                     ∧ token ≠ "" ∧ v = "Bearer " +:+ token)
  ∧ ¬ (is_Some (PodsClient.header headers "x-api-key")
       ∧ is_Some (PodsClient.header headers "Authorization")).
Proof.
  cbv zeta.
  destruct (getAuthHeaders_cases cfg)
    as [(Hmode & k & Hkey & Hk & ->)
       |[(Hmode & token & Htoken & Ht & ->)|(Hnokey & Hnotoken & ->)]];
    simpl; (split; [reflexivity|]); (split; [|split]).
  - intros k'. split.
    + intros [= <-]. done.
    + intros (_ & Hk' & _). congruence.
  - intros v. split; [intros [=]|].
    intros (token & Hjwt & _). congruence.
  - intros [_ [v [=]]].
  - intros k. split; [intros [=]|].
    intros (Hapikey & _). congruence.
  - intros v. split.
    + intros [= <-]. eauto 10.
    + intros (token' & _ & Htoken' & _ & ->). congruence.
  - intros [[v [=]] _].
  - intros k. split; [intros [=]|].
    intros (Hmode & Hkey & Hk). exfalso. apply Hnokey. eauto.
  - intros v. split; [intros [=]|].
    intros (token & Hmode & Htoken & Ht & _). exfalso. apply Hnotoken. eauto.
  - intros [[v [=]] _].
Qed.

Lemma getAuthHeaders_credentials_witness :
  PodsClient.header
    (PodsClient.getAuthHeaders (PodsClient.new (config {[ "API_KEY_PODS" := "k1" ]})))
    "x-api-key" = Some "k1".
Proof.
  apply (proj1 (proj2 (getAuthHeaders_credentials
                         (config {[ "API_KEY_PODS" := "k1" ]}))) "k1").
  split; [reflexivity|]. split; [reflexivity|discriminate].
Defined.

Set Warnings "-clear-no-such-hyp".

Lemma warnings_spec (cfg : Config) :
  ("Warning: API_KEY_PODS is not configured in .env file" ∈ warnings cfg
   ↔ authMode cfg = "apikey"
     ∧ Js.truthy_prim (Js.of_option (apiKeyPods cfg)) = false)
  ∧ ("Warning: JWT_TOKEN is not configured in .env file" ∈ warnings cfg
     ↔ authMode cfg = "jwt"
       ∧ Js.truthy_prim (Js.of_option (jwtToken cfg)) = false).
Proof.
  unfold warnings.
  destruct (String.eqb_spec (authMode cfg) "apikey") as [Hmode|Hmode];
    destruct (String.eqb_spec (authMode cfg) "jwt") as [Hjwt|Hjwt];
    destruct (Js.truthy_prim (Js.of_option (apiKeyPods cfg)));
    destruct (Js.truthy_prim (Js.of_option (jwtToken cfg)));
    destruct (Js.truthy_prim (Js.of_option (mcpApiKey cfg)));
    simpl; rewrite ?elem_of_cons, ?elem_of_nil; naive_solver.
Qed.

(** X8: the client goes out without credentials exactly when the startup
    check said so or could not tell.  The headers of a backend request
    are the bare [Content-Type] exactly when [src/config.js] printed the
    missing-API-key or the missing-token warning, or when the auth mode is
    neither [apikey] nor [jwt] (for which it prints nothing). *)
Theorem no_credentials_iff_warned_or_unknown_mode (cfg : Config) :
  PodsClient.getAuthHeaders (PodsClient.new cfg)
  = [ ("Content-Type", "application/json") ]
  ↔ "Warning: API_KEY_PODS is not configured in .env file" ∈ warnings cfg
    ∨ "Warning: JWT_TOKEN is not configured in .env file" ∈ warnings cfg
    ∨ (authMode cfg ≠ "apikey" ∧ authMode cfg ≠ "jwt").
Proof.
  destruct (warnings_spec cfg) as [Hkeywarn Htokenwarn].
  rewrite Hkeywarn, Htokenwarn.
  destruct (getAuthHeaders_cases cfg)
    as [(Hmode & k & Hkey & Hk & ->)
       |[(Hmode & token & Htoken & Ht & ->)|(Hnokey & Hnotoken & ->)]].
  - split; [intros [=]|].
    assert (Js.truthy_prim (Js.of_option (apiKeyPods cfg)) = true)
      by (apply truthy_of_option_true; eauto).
    intros [[_ ?]|[[? _]|[? _]]]; congruence.
  - split; [intros [=]|].
    assert (Js.truthy_prim (Js.of_option (jwtToken cfg)) = true)
      by (apply truthy_of_option_true; eauto).
    intros [[? _]|[[_ ?]|[_ ?]]]; congruence.
  - split; [intros _|done].
    destruct (decide (authMode cfg = "apikey")) as [Hmode|Hmode].
    + left. split; [done|].
      destruct (Js.truthy_prim (Js.of_option (apiKeyPods cfg))) eqn:Hkey; [|done].
      apply truthy_of_option_true in Hkey. exfalso. apply Hnokey. eauto.
    + destruct (decide (authMode cfg = "jwt")) as [Hjwt|Hjwt]; [|eauto].
      right. left. split; [done|].
      destruct (Js.truthy_prim (Js.of_option (jwtToken cfg))) eqn:Htoken; [|done].
      apply truthy_of_option_true in Htoken. exfalso. apply Hnotoken. eauto.
Qed.

(** ** The REST client: one request, one outcome *)

(** X9: [makeRequest] returns data exactly when the call settled with an
    OK status and a body that parses as JSON, and then it returns that
    body; it makes exactly one [fetch] call whatever the outcome (no
    retry); and an error status whose JSON body is an object is reported
    with the body's [message] converted to a string when that is truthy
    (with the [TypeError] of the conversion when it has none), otherwise
    with [API request failed with status <status>]. *)
Theorem makeRequest_outcome (network : Fetch) (this : PodsClient.t)
    (url : string) (options : RequestInit) :
  let run := PodsClient.makeRequest network this url options in
  (∀ data, result run = Return data
           ↔ ∃ response,
               network url (PodsClient.fetch_init this options) = Return response
               ∧ resp_ok response = true ∧ resp_json response = Return data)
  ∧ calls run = [(url, PodsClient.fetch_init this options)]
  ∧ (∀ response props,
       network url (PodsClient.fetch_init this options) = Return response →
       resp_ok response = false → resp_json response = Return (Js.Obj props) →
       result run
       = Throw {| err_message :=
                    if Js.truthy (Js.own props "message")
                    then match Js.ToString (Js.own props "message") with
                         | Some text => text
                         | None => "Cannot convert object to primitive value"
                         end
                    else "API request failed with status "
                         +:+ Js.number_to_string (resp_status response) |}).
Proof.
  cbv zeta. split; [|split].
  - intros data.
    unfold PodsClient.makeRequest, PodsClient.fetch, mbind, M_bind, lift, read.
    destruct (network url (PodsClient.fetch_init this options)) as [response|e];
      simpl.
    + destruct (resp_json response) as [body|e] eqn:Hjson; simpl.
      * destruct (resp_ok response) eqn:Hok; simpl.
        -- split.
           ++ intros [= <-]. exists response. by rewrite Hjson.
           ++ intros (r & [= <-] & _ & Hbody). congruence.
        -- split.
           ++ destruct (Js.member body "message") as [message|]; simpl;
                [|intros [=]].
              unfold text_of.
              destruct (Js.truthy message); [|intros [=]].
              destruct (Js.ToString message); intros [=].
           ++ intros (r & [= <-] & Hok' & _). congruence.
      * split; [intros [=]|]. intros (r & [= <-] & _ & Hbody). congruence.
    + split; [intros [=]|]. intros (r & [=] & _).
  - apply makeRequest_calls.
  - intros response props Hnet Hok Hjson.
    unfold PodsClient.makeRequest, PodsClient.fetch, mbind, M_bind, lift, read.
    rewrite Hnet. simpl. rewrite Hjson. simpl. rewrite Hok. simpl.
    unfold text_of.
    destruct (Js.truthy (Js.own props "message")); [|reflexivity].
    by destruct (Js.ToString (Js.own props "message")).
Qed.

Lemma makeRequest_outcome_witness :
  result (PodsClient.makeRequest
            (fun _ _ =>
               Return {| resp_ok := false; resp_status := 500;
                         resp_json := Return (Js.Obj []) |})
            (PodsClient.new (config ∅)) "http://backend/x"
            (PodsClient.options_for "GET" None))
  = Throw {| err_message := "API request failed with status 500" |}.
Proof.
  apply (proj2 (proj2 (makeRequest_outcome
                         (fun _ _ =>
                            Return {| resp_ok := false; resp_status := 500;
                                      resp_json := Return (Js.Obj []) |})
                         (PodsClient.new (config ∅)) "http://backend/x"
                         (PodsClient.options_for "GET" None)))
           {| resp_ok := false; resp_status := 500;
              resp_json := Return (Js.Obj []) |} []);
    reflexivity.
Defined.

(** ** Tools: what goes out to the backend *)

Lemma makeRequest_shape (network : Fetch) (this : PodsClient.t) (url : string)
    (options : RequestInit) :
  ∃ c, PodsClient.makeRequest network this url options
       = ([(url, PodsClient.fetch_init this options)], c).
Proof.
  pose proof (makeRequest_calls network this url options) as Hcalls.
  destruct (PodsClient.makeRequest network this url options) as [made c].
  simpl in Hcalls. subst made. by exists c.
Qed.


Ltac tool_branches name :=
  unfold callTool, callTool_switch, PodsClient.getPodKeyword,
    PodsClient.updatePodKeyword, PodsClient.getAllPods,
    PodsClient.getPodByNumber, PodsClient.createPod, PodsClient.updatePod,
    PodsClient.deletePod;
  cbv zeta;
  repeat match goal with
         | |- context [String.eqb name ?lit] =>
             destruct (String.eqb_spec name lit) as [->|?]
         end;
  unfold read, destructure_collection, text_of, mbind, M_bind;
  cbn [arguments_value Js.member ret throw fst snd calls result app].

Ltac tool_branch :=
  unfold callTool, callTool_switch, PodsClient.getPodKeyword,
    PodsClient.updatePodKeyword, PodsClient.getAllPods,
    PodsClient.getPodByNumber, PodsClient.createPod, PodsClient.updatePod,
    PodsClient.deletePod;
  cbv zeta;
  cbn [String.eqb Ascii.eqb Bool.eqb];
  unfold read, destructure_collection, text_of, mbind, M_bind;
  cbn [arguments_value Js.member ret throw fst snd calls result app].

Ltac tool_conversions :=
  repeat match goal with
         | H : Js.ToString ?v = _ |- context [Js.ToString ?v] => rewrite H
         | |- context [Js.ToString ?v] => destruct (Js.ToString v)
         end;
  cbn [ret throw fst snd calls result app].

Ltac tool_requests :=
  repeat match goal with
         | |- context [PodsClient.makeRequest ?n ?t ?u ?o] =>
             let c := fresh "c" in
             destruct (makeRequest_shape n t u o) as [c ->]; destruct c
         end;
  cbn [try_catch ret throw fst snd calls result app length].

Lemma not_cataloged (name : string) :
  name ≠ "get_pod_keyword" → name ≠ "update_pod_keyword" →
  name ≠ "get_all_pods" → name ≠ "get_pod_by_number" → name ≠ "create_pod" →
  name ≠ "update_pod" → name ≠ "delete_pod" → name ∉ tool_catalog.
Proof.
  intros ??????? Hin. unfold tool_catalog in Hin. simpl in Hin.
  repeat (apply elem_of_cons in Hin as [?|Hin]; [done|]).
  inversion Hin.
Qed.

(** X10: what a tool call hands to [fetch].  A tool invocation makes at
    most one [fetch] call.  The URL string it passes is the API base URL,
    then [/api/v2/pods/], then text built from the arguments; the method
    is one of GET, PATCH, POST and DELETE; the headers are exactly the
    client's auth headers.  The arguments enter the URL as they are,
    without encoding: [get_all_pods] passes the base URL, [/api/v2/pods/]
    and the very characters of [collection], whatever they are. *)
Theorem tool_calls_go_to_backend (network : Fetch) (cfg : Config)
    (name : string) (args : option (list (string * Js.value))) :
  (length (calls (callTool network cfg name args)) ≤ 1)%nat
  ∧ (∀ url init, (url, init) ∈ calls (callTool network cfg name args) →
       (∃ rest, url = apiBaseUrl cfg +:+ "/api/v2/pods/" +:+ rest)
       ∧ init_headers init = Some (PodsClient.getAuthHeaders (PodsClient.new cfg))
       ∧ ∃ method, init_method init = Some method
                   ∧ method ∈ [ "GET"; "PATCH"; "POST"; "DELETE" ])
  ∧ (∀ props c,
       Js.own props "collection" = Js.Prim (Js.Str c) →
       calls (callTool network cfg "get_all_pods" (Some props))
       = [ (apiBaseUrl cfg +:+ "/api/v2/pods/" +:+ c,
            PodsClient.fetch_init (PodsClient.new cfg)
              (PodsClient.options_for "GET" None)) ]).
Proof.
  split; [|split].
  - destruct args as [props|]; tool_branches name; tool_conversions;
      tool_requests; simpl; lia.
  - destruct args as [props|]; tool_branches name; tool_conversions;
      tool_requests.
    all: intros url init Hin.
    all: try (inversion Hin; fail).
    all: apply list_elem_of_singleton in Hin; injection Hin as -> ->.
    all: split; [first [by eexists | by exists "keyword"]|].
    all: split; [simpl; by rewrite spread_nil_r|].
    all: eexists; split; [reflexivity|set_solver].
  - intros props c Hcollection.
    tool_branch. rewrite Hcollection.
    cbn [Js.ToString Js.prim_to_string ret fst snd].
    tool_requests; reflexivity.
Qed.

Lemma tool_calls_go_to_backend_witness :
  ∃ rest, "http://apigateway.cxocoe.us/api/v2/pods/testpods/3"
          = apiBaseUrl (config ∅) +:+ "/api/v2/pods/" +:+ rest.
Proof.
  apply (proj1 (proj2 (tool_calls_go_to_backend network_timing_out (config ∅)
                         "delete_pod"
                         (Some [ ("collection", Js.Prim (Js.Str "testpods"));
                                 ("number", Js.Prim (Js.Num 3)) ])))
           "http://apigateway.cxocoe.us/api/v2/pods/testpods/3"
           (PodsClient.fetch_init (PodsClient.new (config ∅))
              (PodsClient.options_for "DELETE" None))).
  vm_compute. left.
Defined.

(** X11: the handler does not check required fields.  For every tool of
    the catalog and every arguments object whose [collection] and
    [number], present or not, convert to strings, exactly one backend
    call is made; an absent field goes out as [undefined].  When one of
    the two has no string conversion (an object with an own [toString]),
    the conversion fails before any call and the result is an
    [isError: true] result.  When [arguments] is absent altogether, a
    tool other than [get_pod_keyword] stops before calling, with an
    [isError: true] result; [get_pod_keyword] calls the backend even
    then. *)
Theorem tool_arguments_not_validated (network : Fetch) (cfg : Config)
    (name : string) :
  name ∈ tool_catalog →
  (∀ props,
     is_Some (Js.ToString (Js.own props "collection")) →
     is_Some (Js.ToString (Js.own props "number")) →
     length (calls (callTool network cfg name (Some props))) = 1%nat)
  ∧ (∀ props,
       calls (callTool network cfg name (Some props)) = [] →
       result (callTool network cfg name (Some props))
       = Return {| content :=
                     [ {| content_type := "text";
                          content_text :=
                            JSON_stringify
                              (Js.Obj
                                 [ ("error",
                                    Js.Prim (Js.Str "Cannot convert object to primitive value"));
                                   ("details",
                                    Js.Prim (Js.Str "Failed to execute API request.")) ])
                              2 |} ];
                   isError := Some true |})
  ∧ (name ≠ "get_pod_keyword" →
     calls (callTool network cfg name None) = []
     ∧ ∃ r, result (callTool network cfg name None) = Return r
            ∧ isError r = Some true)
  ∧ length (calls (callTool network cfg "get_pod_keyword" None)) = 1%nat.
Proof.
  intros Hcataloged. split; [|split; [|split]].
  - intros props [c Hc] [n Hn].
    tool_branches name; tool_conversions; tool_requests; try reflexivity.
    exfalso. by apply (not_cataloged name).
  - intros props.
    tool_branches name; tool_conversions; tool_requests;
      try discriminate; try reflexivity.
    intros _. exfalso. by apply (not_cataloged name).
  - intros Hother.
    tool_branches name; tool_requests;
      try done; (split; [reflexivity|by eexists]).
  - tool_branch; tool_requests; reflexivity.
Qed.

Lemma tool_arguments_not_validated_witness :
  length (calls (callTool network_timing_out (config ∅) "update_pod" (Some [])))
  = 1%nat.
Proof.
  apply (proj1 (tool_arguments_not_validated network_timing_out (config ∅)
                  "update_pod"
                  ltac:(apply (bool_decide_unpack _); vm_compute; exact I)));
    vm_compute; eauto.
Defined.


Lemma own_filter_other (props : list (string * Js.value)) (gone key : string) :
  key ≠ gone →
  Js.own (filter (fun kv => bool_decide (kv.1 ≠ gone)) props) key
  = Js.own props key.
Proof.
  intros Hne. induction props as [|[k v] props IH]; [done|].
  rewrite filter_cons. simpl. case_bool_decide as Hk; simpl.
  - by rewrite IH.
  - subst k. destruct (String.eqb_spec gone key); [congruence|done].
Qed.

Lemma own_filter_gone (props : list (string * Js.value)) (gone : string) :
  Js.own (filter (fun kv => bool_decide (kv.1 ≠ gone)) props) gone
  = Js.Prim Js.Undefined.
Proof.
  induction props as [|[k v] props IH]; [done|].
  rewrite filter_cons. simpl. case_bool_decide as Hk; simpl; [|done].
  destruct (String.eqb_spec k gone); [congruence|done].
Qed.

(** X13: what [create_pod] hands to [fetch].  Given an arguments object
    whose [collection] converts to the string [c], it makes one call with
    method POST, the URL string [<API base URL>/api/v2/pods/] followed by
    [c], and as body the JSON of the arguments without [collection]: the
    body has no [collection], every other property has the value it had,
    and the properties keep their order.  When [collection] has no string
    conversion, no call is made. *)
Theorem create_pod_sends_all_but_collection (network : Fetch) (cfg : Config)
    (props : list (string * Js.value)) :
  (∀ c, Js.ToString (Js.own props "collection") = Some c →
     ∃ body,
       calls (callTool network cfg "create_pod" (Some props))
       = [ (apiBaseUrl cfg +:+ "/api/v2/pods/" +:+ c,
            PodsClient.fetch_init (PodsClient.new cfg)
              (PodsClient.options_for "POST"
                 (Some (JSON_stringify (Js.Obj body) 0)))) ]
       ∧ Js.own body "collection" = Js.Prim Js.Undefined
       ∧ (∀ key, key ≠ "collection" → Js.own body key = Js.own props key)
       ∧ sublist body props)
  ∧ (Js.ToString (Js.own props "collection") = None →
     calls (callTool network cfg "create_pod" (Some props)) = []).
Proof.
  split.
  - intros c Hc.
    exists (filter (fun kv => bool_decide (kv.1 ≠ "collection")) props).
    split; [|split; [|split]].
    + tool_branch; tool_conversions; tool_requests; reflexivity.
    + apply own_filter_gone.
    + intros key Hkey. by apply own_filter_other.
    + apply sublist_filter.
  - intros Hc. tool_branch; tool_conversions; reflexivity.
Qed.

Lemma create_pod_sends_all_but_collection_witness :
  ∃ body,
    calls (callTool network_timing_out (config ∅) "create_pod"
             (Some [ ("collection", Js.Prim (Js.Str "testpods"));
                     ("POD", Js.Prim (Js.Str "pod-1")) ]))
    = [ ("http://apigateway.cxocoe.us/api/v2/pods/testpods",
         PodsClient.fetch_init (PodsClient.new (config ∅))
           (PodsClient.options_for "POST"
              (Some (JSON_stringify (Js.Obj body) 0)))) ]
    ∧ Js.own body "POD" = Js.Prim (Js.Str "pod-1").
Proof.
  destruct (proj1 (create_pod_sends_all_but_collection network_timing_out
                     (config ∅)
                     [ ("collection", Js.Prim (Js.Str "testpods"));
                       ("POD", Js.Prim (Js.Str "pod-1")) ])
              "testpods" eq_refl)
    as (body & Hcalls & _ & Hkept & _).
  exists body. split; [exact Hcalls|].
  rewrite (Hkept "POD"); [reflexivity|discriminate].
Defined.

(** ** Resources *)

(** X14: [resources/read] always answers with contents.  Whatever the URI
    and whatever the backend does, the handler returns, so the JSON-RPC
    reply is a result; the result holds exactly one entry, which echoes
    the requested URI and has MIME type [application/json]; and at most
    one backend call is made. *)
Theorem readResource_always_answers (network : Fetch) (cfg : Config)
    (uri : string) :
  (∃ text,
     result (readResource network cfg uri)
     = Return {| contents := [ {| res_uri := uri;
                                  res_mimeType := "application/json";
                                  res_text := text |} ] |}
     ∧ reply (result (readResource network cfg uri))
       = RpcResult {| contents := [ {| res_uri := uri;
                                       res_mimeType := "application/json";
                                       res_text := text |} ] |})
  ∧ (length (calls (readResource network cfg uri)) ≤ 1)%nat.
Proof.
  unfold readResource, readResource_switch, PodsClient.getPodKeyword.
  cbv zeta.
  repeat match goal with
         | |- context [String.eqb uri ?lit] =>
             destruct (String.eqb_spec uri lit) as [->|?]
         end;
    unfold mbind, M_bind; tool_requests;
    (split; [eexists; split; reflexivity|simpl; lia]).
Qed.

(** X15: the configuration resource does not give secrets away.  Reading
    [pods://config] makes no backend call, and its answer depends on the
    backend API key and the JWT only through whether each is set to a
    non-empty value: two configurations that agree on base URL and auth
    mode and on which of the two secrets are set give the same answer. *)
Theorem config_resource_hides_secrets (network : Fetch) (cfg cfg' : Config) :
  apiBaseUrl cfg = apiBaseUrl cfg' → authMode cfg = authMode cfg' →
  Js.truthy_prim (Js.of_option (apiKeyPods cfg))
  = Js.truthy_prim (Js.of_option (apiKeyPods cfg')) →
  Js.truthy_prim (Js.of_option (jwtToken cfg))
  = Js.truthy_prim (Js.of_option (jwtToken cfg')) →
  readResource network cfg "pods://config"
  = readResource network cfg' "pods://config"
  ∧ calls (readResource network cfg "pods://config") = [].
Proof.
  intros Hbase Hmode Hkey Htoken.
  unfold readResource, readResource_switch.
  cbn [String.eqb Ascii.eqb Bool.eqb andb try_catch ret calls fst].
  rewrite Hbase, Hmode, Hkey, Htoken. done.
Qed.

Lemma config_resource_hides_secrets_witness :
  readResource network_timing_out
    (config {[ "API_KEY_PODS" := "first-secret" ]}) "pods://config"
  = readResource network_timing_out
      (config {[ "API_KEY_PODS" := "another-secret" ]}) "pods://config".
Proof.
  apply (config_resource_hides_secrets network_timing_out
           (config {[ "API_KEY_PODS" := "first-secret" ]})
           (config {[ "API_KEY_PODS" := "another-secret" ]}));
    reflexivity.
Defined.

(** ** Sessions: reuse, isolation and teardown *)

Lemma session_slot_registered (transports : gmap string Transport)
    (s : string) (t : Transport) :
  transports !! s = Some t → s ≠ "" →
  session_slot transports (Some s) = Js.Own t.
Proof.
  intros Hlookup Hs. unfold session_slot, Js.dict_get.
  apply truthy_Str in Hs. by rewrite Hs, Hlookup.
Qed.

Lemma onclose_other (t : Transport) (transports : gmap string Transport)
    (k : string) :
  sessionId t ≠ Some k → onclose t transports !! k = transports !! k.
Proof.
  intros Hother. unfold onclose.
  destruct (sessionId t) as [s|] eqn:Hs; simpl; [|done].
  destruct (Js.slot_truthy _); [|done].
  apply lookup_delete_ne. congruence.
Qed.

Lemma onclose_none (t : Transport) (transports : gmap string Transport) :
  sessionId t = None → onclose t transports = transports.
Proof. intros Hnone. unfold onclose. by rewrite Hnone. Qed.

Lemma callbacks_other (t : Transport) (run : SdkRun)
    (transports : gmap string Transport) (k : string) :
  sessionId t ≠ Some k → initialized run ≠ Some k →
  callbacks t run transports !! k = transports !! k.
Proof.
  intros Ht Hrun. unfold callbacks, onsessioninitialized.
  destruct (initialized run) as [s|]; simpl.
  - destruct (closed run).
    + rewrite onclose_other by (simpl; congruence).
      apply lookup_insert_ne. congruence.
    + apply lookup_insert_ne. congruence.
  - destruct (closed run); [by apply onclose_other|done].
Qed.

Lemma callbacks_lookup_is_Some (t : Transport) (run : SdkRun)
    (transports : gmap string Transport) (k : string) :
  is_Some (callbacks t run transports !! k) →
  is_Some (transports !! k) ∨ initialized run = Some k.
Proof.
  destruct (decide (initialized run = Some k)) as [|Hrun]; [by right|].
  intros Hafter. left.
  unfold callbacks, onsessioninitialized, onclose in Hafter.
  destruct (initialized run) as [s|]; simpl in Hafter.
  - assert (s ≠ k) by congruence.
    destruct (closed run); [destruct (Js.slot_truthy _)|];
      rewrite ?lookup_delete_is_Some, lookup_insert_ne in Hafter by done;
      tauto.
  - destruct (closed run); [destruct (Js.slot_truthy _)|];
      rewrite ?lookup_delete_is_Some in Hafter; tauto.
Qed.

(** What an [/mcp] request does to the registry: nothing, or the
    callbacks of one SDK run on one transport, which is a registered one
    or the one just constructed. *)
Lemma mcp_registry_step (sdk : Sdk) (transports : gmap string Transport)
    (req : Request) :
  transports_after (mcp sdk transports req) = transports
  ∨ ∃ t, transports_after (mcp sdk transports req)
         = callbacks t (sdk t req) transports
         ∧ ((∃ s, req_headers req !! "mcp-session-id" = Some s
                  ∧ transports !! s = Some t)
            ∨ sessionId t = None).
Proof.
  unfold mcp, post_mcp, get_mcp, delete_mcp, post_deliver. cbv zeta.
  destruct (req_verb req);
    destruct (session_slot transports (req_headers req !! "mcp-session-id"))
      as [t|name|] eqn:Hslot;
    repeat match goal with
           | |- context [if ?b then _ else _] => destruct b
           end;
    simpl; try (by left);
    right; eexists; (split; [reflexivity|]);
    try (by right);
    left; apply session_slot_own in Hslot as (s & Hs & _ & Hlookup); eauto.
Qed.

Lemma mcp_registered (sdk : Sdk) (transports : gmap string Transport)
    (req : Request) (s : string) (t : Transport) :
  req_headers req !! "mcp-session-id" = Some s → s ≠ "" →
  transports !! s = Some t →
  transports_after (mcp sdk transports req) = callbacks t (sdk t req) transports
  ∧ created (mcp sdk transports req) = None
  ∧ ∀ r, ending (sdk t req) = Responded r →
         response (mcp sdk transports req) = Some r.
Proof.
  intros Hsid Hs Hlookup.
  pose proof (session_slot_registered transports s t Hlookup Hs) as Hslot.
  assert (Htruthy : Js.truthy_prim (Js.of_option (Some s)) = true)
    by by apply truthy_Str.
  unfold mcp, post_mcp, get_mcp, delete_mcp, post_deliver. cbv zeta.
  rewrite Hsid, Hslot, Htruthy.
  destruct (req_verb req); simpl; repeat split; intros r ->; done.
Qed.

(** X16: a request that names a registered session is handed to that
    session's transport, whatever its verb and body.  No transport is
    constructed (not even for an [initialize] body), the registry changes
    only through the callbacks of that one SDK run, and a response the
    SDK writes is the response of the request. *)
Theorem registered_session_is_reused (sdk : Sdk)
    (transports : gmap string Transport) (req : Request) (s : string)
    (t : Transport) :
  req_headers req !! "mcp-session-id" = Some s → s ≠ "" →
  transports !! s = Some t →
  created (mcp sdk transports req) = None
  ∧ transports_after (mcp sdk transports req)
    = callbacks t (sdk t req) transports
  ∧ ∀ r, ending (sdk t req) = Responded r →
         response (mcp sdk transports req) = Some r.
Proof.
  intros Hsid Hs Hlookup.
  destruct (mcp_registered sdk transports req s t Hsid Hs Hlookup)
    as (Hafter & Hcreated & Hresponse).
  done.
Qed.

Lemma registered_session_is_reused_witness :
  created (mcp sdk_accepting
             {[ "sess-1" := {| sessionId := Some "sess-1";
                               enableJsonResponse := true;
                               eventStore := InMemoryEventStore.new |} ]}
             (request POST [("mcp-session-id", "sess-1")] initialize_body))
  = None.
Proof.
  apply (registered_session_is_reused sdk_accepting
           {[ "sess-1" := {| sessionId := Some "sess-1";
                             enableJsonResponse := true;
                             eventStore := InMemoryEventStore.new |} ]}
           (request POST [("mcp-session-id", "sess-1")] initialize_body)
           "sess-1"
           {| sessionId := Some "sess-1"; enableJsonResponse := true;
              eventStore := InMemoryEventStore.new |}).
  - reflexivity.
  - discriminate.
  - reflexivity.
Defined.

(** X18: sessions do not disturb each other.  In a registry keyed by
    session id, handling a request leaves every session alone except the
    one the request names and the one the SDK initialises during that
    request: for any other id the registry holds what it held. *)
Theorem other_sessions_untouched (sdk : Sdk)
    (transports : gmap string Transport) (req : Request) (k : string) :
  keyed transports →
  req_headers req !! "mcp-session-id" ≠ Some k →
  (∀ t, initialized (sdk t req) ≠ Some k) →
  transports_after (mcp sdk transports req) !! k = transports !! k.
Proof.
  intros Hkeyed Hother Hfresh.
  destruct (mcp_registry_step sdk transports req)
    as [->|(t & -> & [(s & Hsid & Hlookup)|Hnew])]; [done| |].
  - apply callbacks_other; [|done].
    rewrite (Hkeyed s t Hlookup). congruence.
  - apply callbacks_other; [|done]. by rewrite Hnew.
Qed.

Lemma other_sessions_untouched_witness :
  transports_after
    (mcp sdk_accepting
       {[ "sess-9" := {| sessionId := Some "sess-9"; enableJsonResponse := true;
                         eventStore := InMemoryEventStore.new |} ]}
       (request POST [] initialize_body)) !! "sess-9"
  = Some {| sessionId := Some "sess-9"; enableJsonResponse := true;
            eventStore := InMemoryEventStore.new |}.
Proof.
  rewrite (other_sessions_untouched sdk_accepting
             {[ "sess-9" := {| sessionId := Some "sess-9";
                               enableJsonResponse := true;
                               eventStore := InMemoryEventStore.new |} ]}
             (request POST [] initialize_body) "sess-9").
  - reflexivity.
  - intros sid t Hlookup.
    apply lookup_singleton_Some in Hlookup as [<- <-]. reflexivity.
  - discriminate.
  - intros t. unfold sdk_accepting. simpl.
    destruct (sessionId t); discriminate.
Defined.

(** X19: the registry grows only by ids the SDK generated.  An id that is
    registered after a request was registered before it, or is the id
    with which the SDK reported a transport initialised during that
    request. *)
Theorem registry_grows_only_by_initialized_ids (sdk : Sdk)
    (transports : gmap string Transport) (req : Request) (k : string) :
  is_Some (transports_after (mcp sdk transports req) !! k) →
  is_Some (transports !! k) ∨ ∃ t, initialized (sdk t req) = Some k.
Proof.
  destruct (mcp_registry_step sdk transports req) as [->|(t & -> & _)];
    [by left|].
  intros Hafter.
  destruct (callbacks_lookup_is_Some t (sdk t req) transports k Hafter);
    eauto.
Qed.

Lemma registry_grows_only_by_initialized_ids_witness :
  is_Some ((∅ : gmap string Transport) !! "sess-1")
  ∨ ∃ t, initialized
           (sdk_accepting t (request POST [] initialize_body)) = Some "sess-1".
Proof.
  apply (registry_grows_only_by_initialized_ids sdk_accepting ∅
           (request POST [] initialize_body) "sess-1").
  vm_compute. eauto.
Defined.

(** X20: a closed session is unknown afterwards.  In a registry keyed by
    session id, when the SDK closes the transport of the session a
    request names (as it does for a DELETE), that session and no other
    leaves the registry; a later POST naming it is answered 400 with
    JSON-RPC code -32000 and creates nothing, provided the id is not the
    name of a member inherited from [Object.prototype]. *)
Theorem closed_session_is_unknown_afterwards (sdk later : Sdk)
    (transports : gmap string Transport) (req req' : Request) (s : string)
    (t : Transport) :
  keyed transports → transports !! s = Some t → s ≠ "" →
  s ∉ Js.object_prototype_keys →
  req_headers req !! "mcp-session-id" = Some s →
  initialized (sdk t req) = None → closed (sdk t req) = true →
  req_headers req' !! "mcp-session-id" = Some s →
  let after := transports_after (mcp sdk transports req) in
  after = delete s transports
  ∧ post_mcp later after req'
    = {| transports_after := after; created := None;
         response := Some bad_request |}.
Proof.
  intros Hkeyed Hlookup Hs Hown Hsid Hinit Hclosed Hsid'. cbv zeta.
  destruct (mcp_registered sdk transports req s t Hsid Hs Hlookup)
    as (Hafter & _ & _).
  assert (Hdeleted : transports_after (mcp sdk transports req)
                     = delete s transports).
  { rewrite Hafter. unfold callbacks. rewrite Hinit, Hclosed.
    unfold onclose. rewrite (Hkeyed s t Hlookup).
    by rewrite (session_slot_registered transports s t Hlookup Hs). }
  split; [exact Hdeleted|].
  rewrite Hdeleted. apply post_mcp_refused.
  - rewrite Hsid'. apply session_slot_unknown; [|done].
    apply lookup_delete_eq.
  - rewrite Hsid'. apply truthy_Str in Hs. simpl in *. by rewrite Hs.
Qed.

Lemma closed_session_is_unknown_afterwards_witness :
  post_mcp sdk_accepting
    (transports_after
       (mcp (fun _ _ => {| initialized := None; closed := true;
                           ending := Responded {| status := 200;
                                                  payload := Text "" |} |})
          {[ "sess-1" := {| sessionId := Some "sess-1";
                            enableJsonResponse := true;
                            eventStore := InMemoryEventStore.new |} ]}
          (request DELETE [("mcp-session-id", "sess-1")] (Js.Prim Js.Undefined))))
    (request POST [("mcp-session-id", "sess-1")] tools_list_body)
  = {| transports_after :=
         transports_after
           (mcp (fun _ _ => {| initialized := None; closed := true;
                               ending := Responded {| status := 200;
                                                      payload := Text "" |} |})
              {[ "sess-1" := {| sessionId := Some "sess-1";
                                enableJsonResponse := true;
                                eventStore := InMemoryEventStore.new |} ]}
              (request DELETE [("mcp-session-id", "sess-1")]
                 (Js.Prim Js.Undefined)));
       created := None;
       response := Some bad_request |}.
Proof.
  apply (closed_session_is_unknown_afterwards
           (fun _ _ => {| initialized := None; closed := true;
                          ending := Responded {| status := 200;
                                                 payload := Text "" |} |})
           sdk_accepting
           {[ "sess-1" := {| sessionId := Some "sess-1";
                             enableJsonResponse := true;
                             eventStore := InMemoryEventStore.new |} ]}
           (request DELETE [("mcp-session-id", "sess-1")] (Js.Prim Js.Undefined))
           (request POST [("mcp-session-id", "sess-1")] tools_list_body)
           "sess-1"
           {| sessionId := Some "sess-1"; enableJsonResponse := true;
              eventStore := InMemoryEventStore.new |}).
  - intros sid t Hlookup.
    apply lookup_singleton_Some in Hlookup as [<- <-]. reflexivity.
  - reflexivity.
  - discriminate.
  - apply (bool_decide_unpack _). vm_compute. exact I.
  - reflexivity.
  - reflexivity.
  - reflexivity.
  - reflexivity.
Defined.

(** ** The auth gate in front of the sessions *)

Lemma gate_on_mcp_path (cfg : Config) (req : Request) (key : string) :
  mcpApiKey cfg = Some key → key ≠ "" →
  req_path req = serverPath cfg +:+ "/mcp" →
  authenticateApiKey cfg req
  = match req_headers req !! "x-api-key" with
    | Some v =>
        if String.eqb v "" then
          Reply {| status := 401;
                   payload := Json (jsonrpc_error (-32001)
                                      "Unauthorized: Missing X-API-Key header") |}
        else if String.eqb v key then Next
        else Reply {| status := 403;
                      payload := Json (jsonrpc_error (-32002)
                                         "Forbidden: Invalid API key") |}
    | None =>
        Reply {| status := 401;
                 payload := Json (jsonrpc_error (-32001)
                                    "Unauthorized: Missing X-API-Key header") |}
    end.
Proof.
  intros Hkey Hnonempty Hpath.
  destruct (mcp_path_protected cfg req Hpath) as [Hhealth Hroot].
  unfold authenticateApiKey.
  apply String.eqb_neq in Hhealth. apply String.eqb_neq in Hroot.
  rewrite Hhealth, Hroot, Hkey. simpl.
  apply truthy_Str in Hnonempty. simpl in Hnonempty. rewrite Hnonempty. simpl.
  destruct (req_headers req !! "x-api-key") as [v|]; simpl; [|done].
  destruct (String.eqb_spec v ""); simpl; [done|].
  destruct (String.eqb_spec v key) as [->|Hdiff].
  - by rewrite strict_eq_refl.
  - rewrite strict_eq_false by congruence. done.
Qed.

(** X21: without the key, no session is reached.  With a non-empty MCP
    API key configured, a request to the MCP endpoint whose [x-api-key]
    header is not that key is answered by the gate with 401 / -32001 or
    403 / -32002: no transport is constructed, the registry stays as it
    was and the response does not depend on the SDK.  A request carrying
    the key is handled as if there were no gate. *)
Theorem unauthenticated_requests_reach_no_session (cfg : Config) (sdk : Sdk)
    (transports : gmap string Transport) (req : Request) (key : string) :
  mcpApiKey cfg = Some key → key ≠ "" →
  req_path req = serverPath cfg +:+ "/mcp" →
  (req_headers req !! "x-api-key" ≠ Some key →
   transports_after (guarded_mcp cfg sdk transports req) = transports
   ∧ created (guarded_mcp cfg sdk transports req) = None
   ∧ (answers (guarded_mcp cfg sdk transports req) 401 (-32001)
      ∨ answers (guarded_mcp cfg sdk transports req) 403 (-32002))
   ∧ ∀ sdk', guarded_mcp cfg sdk' transports req
             = guarded_mcp cfg sdk transports req)
  ∧ (req_headers req !! "x-api-key" = Some key →
     guarded_mcp cfg sdk transports req = mcp sdk transports req).
Proof.
  intros Hkey Hnonempty Hpath.
  unfold guarded_mcp.
  rewrite (gate_on_mcp_path cfg req key Hkey Hnonempty Hpath).
  split.
  - intros Hwrong.
    destruct (req_headers req !! "x-api-key") as [v|]; simpl.
    + destruct (String.eqb_spec v ""); simpl.
      * repeat split; try done. left. eexists. by repeat split.
      * destruct (String.eqb_spec v key) as [->|Hdiff]; [done|]. simpl.
        repeat split; try done. right. eexists. by repeat split.
    + repeat split; try done. left. eexists. by repeat split.
  - intros ->.
    destruct (String.eqb_spec key ""); [done|].
    by rewrite String.eqb_refl.
Qed.

Lemma unauthenticated_requests_reach_no_session_witness :
  created (guarded_mcp (config_with_key "K") sdk_accepting ∅
             (request POST [] initialize_body)) = None
  ∧ guarded_mcp (config_with_key "K") sdk_accepting ∅
      (request POST [("x-api-key", "K")] initialize_body)
    = mcp sdk_accepting ∅ (request POST [("x-api-key", "K")] initialize_body).
Proof.
  split.
  - apply (proj1 (unauthenticated_requests_reach_no_session
                    (config_with_key "K") sdk_accepting ∅
                    (request POST [] initialize_body) "K"
                    eq_refl ltac:(discriminate) eq_refl)).
    discriminate.
  - apply (proj2 (unauthenticated_requests_reach_no_session
                    (config_with_key "K") sdk_accepting ∅
                    (request POST [("x-api-key", "K")] initialize_body) "K"
                    eq_refl ltac:(discriminate) eq_refl)).
    reflexivity.
Defined.

(** ** Witnesses of the equivalences *)

Lemma auth_disabled_warning_iff_gate_open_witness :
  authenticateApiKey (config ∅) (request POST [] initialize_body) = Next.
Proof.
  apply (proj1 (auth_disabled_warning_iff_gate_open (config ∅))).
  apply (bool_decide_unpack _). vm_compute. exact I.
Defined.

Lemma no_credentials_iff_warned_or_unknown_mode_witness :
  PodsClient.getAuthHeaders
    (PodsClient.new (config {[ "AUTH_MODE" := "none" ]}))
  = [ ("Content-Type", "application/json") ].
Proof.
  apply (proj2 (no_credentials_iff_warned_or_unknown_mode
                  (config {[ "AUTH_MODE" := "none" ]}))).
  right. right. split; vm_compute; discriminate.
Defined.

